(** * The tailnet key authority update builder (tka/builder.go)

    A shallow embedding of [UpdateBuilder] and of the operations of
    tka/builder.go, with the properties of the update chain that the
    builder is responsible for: atomicity of [mkUpdate], the order of its
    steps, hash chaining of the produced AUMs, the pre-checks of the public
    edit operations and the optimistic concurrency check of [Finalize].

    builder.go is the only file of package tka at hand.  The types [AUM],
    [Key], [State], [Authority] and the methods it calls on them are declared
    in other files of the package: what builder.go shows of them (field
    names, argument and result types) is taken from its text, the rest is
    either a parameter ([AUMMethods]) or a definition marked
    "Modelled from the spec". *)

From Stdlib Require Strings.Byte.
From stdpp Require Import base option list vector gmap strings countable.

(** ** Bytes, identifiers, keys *)

Abbreviation byte := Byte.byte.

#[global] Instance byte_eq_dec : EqDecision byte := Byte.byte_eq_dec.

#[global] Instance byte_countable : Countable byte :=
  inj_countable Byte.to_N Byte.of_N Byte.of_to_N.

(** [tkatype.KeyID] and [tkatype.Signature] are byte strings to the
    builder; [tkatype.AUMSigHash] is the fixed-size signing hash, of which
    the builder only passes the bytes on to the signer. *)
Abbreviation KeyID := (list byte).
Abbreviation Signature := (list byte).
Abbreviation AUMSigHash := (list byte).

(** Modelled from the spec: the [Key] struct is declared outside
    builder.go.  The spec gives it an identifier, a vote weight and a
    string-to-string metadata mapping.  [votes] is a Go [uint]; no
    arithmetic is done on it here, so it is kept as a natural number. *)
Record Key : Type := mkKey {
  key_id : KeyID;
  key_votes : N;
  key_meta : gmap string string;
}.

#[global] Instance Key_eq_dec : EqDecision Key.
Proof. solve_decision. Defined.

(** Modelled from the spec: [Key.ID()] is declared outside builder.go; it
    returns the key's stable identifier. *)
Definition Key_ID (k : Key) : KeyID := key_id k.

(** Modelled from the spec: [State] is declared outside builder.go.  It
    is "a mapping from key identifier to Key". *)
Abbreviation State := (gmap KeyID Key).

(** ** Update messages *)

(** The message kinds builder.go produces. *)
Inductive AUMKind : Type := AUMAddKey | AUMRemoveKey | AUMUpdateKey.

#[global] Instance AUMKind_eq_dec : EqDecision AUMKind.
Proof. solve_decision. Defined.

(** The fields of [AUM] that builder.go reads or writes.  [Key *Key] and
    [Votes *uint] are pointers (absent when nil), [Meta] is a Go map
    (absent when nil); a nil slice is the empty list. *)
Record AUM : Type := mkAUM {
  MessageKind : AUMKind;
  PrevAUMHash : list byte;
  AUM_Key : option Key;
  AUM_KeyID : KeyID;
  Votes : option N;
  Meta : option (gmap string string);
  Signatures : list Signature;
}.

#[global] Instance AUM_eq_dec : EqDecision AUM.
Proof. solve_decision. Defined.

Definition set_PrevAUMHash (h : list byte) (u : AUM) : AUM :=
  mkAUM (MessageKind u) h (AUM_Key u) (AUM_KeyID u) (Votes u) (Meta u)
        (Signatures u).

Definition set_Signatures (s : list Signature) (u : AUM) : AUM :=
  mkAUM (MessageKind u) (PrevAUMHash u) (AUM_Key u) (AUM_KeyID u) (Votes u)
        (Meta u) s.

(** ** Errors

    Go [error] values.  The first four are the errors the collaborators
    return (the spec's NotFound, AlreadyExists and StructuralInvalid, and any
    other error value, such as a signer's); the others are the errors
    builder.go builds with [fmt.Errorf], each carrying what its format string
    prints. *)
Inductive error : Type :=
  | NotFound
  | AlreadyExists
  | StructuralInvalid
  | OtherError (msg : string)
  | SigningFailed (cause : error)        (* "signing failed: %v" *)
  | UpdateInvalid (cause : error)        (* "generated update was invalid: %v" *)
  | CannotApply (cause : error)          (* "update cannot be applied: %v" *)
  | KeyAlreadyExists (key : Key)         (* "cannot add key %v: already exists" *)
  | FailedReadingKey (keyID : KeyID) (cause : error)
                                         (* "failed reading key %x: %v" *)
  | NoLongerApplies (parent head : list byte).
                                         (* "updates no longer apply to head: ..." *)

#[global] Instance error_eq_dec : EqDecision error.
Proof. solve_decision. Defined.

(** A Go result pair [(T, error)]: the value when the error is nil. *)
Inductive Result (A : Type) : Type :=
  | Ok (a : A)
  | Err (e : error).
Arguments Ok {A} a.
Arguments Err {A} e.

(** ** Collaborators *)

(** [type Signer interface { SignAUM(AUMSigHash) ([]Signature, error) }].
    A signer is taken by what it returns on each signing hash; it has no
    access to the builder. *)
Record Signer : Type := mkSigner {
  SignAUM : AUMSigHash -> Result (list Signature);
}.

(** The methods of [AUM] that builder.go calls and whose definition the spec
    leaves open: the content hashes (the encoding is "an implementation
    choice") and the state-independent shape check.  [AUMHash] is a byte
    array, of [AUMHashSize] bytes. *)
Class AUMMethods : Type := {
  AUMHashSize : nat;
  Hash : AUM -> vec byte AUMHashSize;
  SigHash : AUM -> AUMSigHash;
  StaticValidate : AUM -> option error;
}.

(** Modelled from the spec: [State.GetKey] is declared outside builder.go;
    it "returns the Key or fails NotFound". *)
Definition GetKey (s : State) (id : KeyID) : Result Key :=
  match s !! id with
  | Some k => Ok k
  | None => Err NotFound
  end.

(** Modelled from the spec: [State.applyVerifiedAUM] is declared outside
    builder.go.  It dispatches on the kind; AddKey "fails AlreadyExists if id
    present; else inserts the Key unchanged", RemoveKey "fails NotFound if id
    absent; else removes it", UpdateKey "fails NotFound if id absent; else
    merges: if votes present, replace vote weight; if meta present, replace
    metadata map".  It returns a new State and leaves its receiver as it is.
    An AddKey message without a key, on which the spec is silent, is
    rejected as structurally invalid. *)
Definition applyVerifiedAUM (s : State) (update : AUM) : Result State :=
  match MessageKind update with
  | AUMAddKey =>
      match AUM_Key update with
      | None => Err StructuralInvalid
      | Some key =>
          match GetKey s (Key_ID key) with
          | Ok _ => Err AlreadyExists
          | Err _ => Ok (<[Key_ID key := key]> s)
          end
      end
  | AUMRemoveKey =>
      match GetKey s (AUM_KeyID update) with
      | Err _ => Err NotFound
      | Ok _ => Ok (delete (AUM_KeyID update) s)
      end
  | AUMUpdateKey =>
      match GetKey s (AUM_KeyID update) with
      | Err _ => Err NotFound
      | Ok k =>
          let votes := match Votes update with Some v => v | None => key_votes k end in
          let meta := match Meta update with Some m => m | None => key_meta k end in
          Ok (<[AUM_KeyID update := mkKey (key_id k) votes meta]> s)
      end
  end.

(** Modelled from the spec: [AUM.Parent()] is declared outside builder.go;
    it "returns the decoded prevHash and a flag indicating genesis (no
    parent)".  Decoding copies the bytes of [PrevAUMHash] into a hash array
    (bytes that are missing stay zero); the flag is set when no parent is
    declared. *)
Definition decode_hash (n : nat) (l : list byte) : vec byte n :=
  fun_to_vec (fun i : fin n => default Byte.x00 (l !! fin_to_nat i)).

Definition Parent `{AUMMethods} (u : AUM) : vec byte AUMHashSize * bool :=
  (decode_hash AUMHashSize (PrevAUMHash u), bool_decide (PrevAUMHash u = [])).

(** ** Objects, pointers and the run-time state *)

(** [AUMHash] is a byte array: builder.go takes its [len], slices it and
    compares two of them with [!=]. *)
Abbreviation AUMHash := (vec byte AUMHashSize).

(** A pointer is an address; an address at which nothing is allocated
    stands for a nil pointer. *)
Abbreviation loc := positive.

Section Machine.
Context `{AUMMethods}.

(** Modelled from the spec: [Authority] is declared outside builder.go.  It
    "owns exactly one head (hash of most recently committed AUM) and its
    corresponding State"; [Head()] "returns current committed hash". *)
Record Authority : Type := mkAuthority {
  a_head : AUMHash;
  a_state : State;
}.

Definition Head (a : Authority) : AUMHash := a_head a.

(** [type UpdateBuilder struct { a *Authority; signer Signer; state State;
    parent AUMHash; out []AUM }].  A nil [signer] is [None]. *)
Record UpdateBuilder : Type := mkUpdateBuilder {
  b_a : loc;
  b_signer : option Signer;
  b_state : State;
  b_parent : AUMHash;
  b_out : list AUM;
}.

Definition set_b_state (s : State) (b : UpdateBuilder) : UpdateBuilder :=
  mkUpdateBuilder (b_a b) (b_signer b) s (b_parent b) (b_out b).

Definition set_b_parent (p : AUMHash) (b : UpdateBuilder) : UpdateBuilder :=
  mkUpdateBuilder (b_a b) (b_signer b) (b_state b) p (b_out b).

Definition set_b_out (o : list AUM) (b : UpdateBuilder) : UpdateBuilder :=
  mkUpdateBuilder (b_a b) (b_signer b) (b_state b) (b_parent b) o.

(** The calls a builder makes to its collaborators, with their arguments. *)
Inductive Call : Type :=
  | CallGetKey (s : State) (id : KeyID)
  | CallSignAUM (h : AUMSigHash)
  | CallStaticValidate (u : AUM)
  | CallApplyVerifiedAUM (s : State) (u : AUM).

(** The run-time state: the Authority and UpdateBuilder objects on the heap,
    and the collaborator calls made so far, oldest first. *)
Record World : Type := mkWorld {
  authorities : gmap loc Authority;
  builders : gmap loc UpdateBuilder;
  calls : list Call;
}.

(** A computation reads and writes the world and returns a value, or
    panics ([None]) on a nil pointer dereference or an index out of range. *)
Definition M (A : Type) : Type := World -> option (A * World).

Definition ret {A : Type} (x : A) : M A := fun w => Some (x, w).

Definition bind {A B : Type} (m : M A) (k : A -> M B) : M B :=
  fun w => match m w with
           | Some (x, w') => k x w'
           | None => None
           end.

Definition panic {A : Type} : M A := fun _ => None.

Definition load_builder (b : loc) : M UpdateBuilder :=
  fun w => match builders w !! b with
           | Some v => Some (v, w)
           | None => None
           end.

(** An assignment to a field of [*b]. *)
Definition store_builder (b : loc) (f : UpdateBuilder -> UpdateBuilder) : M unit :=
  fun w => match builders w !! b with
           | Some v => Some (tt, mkWorld (authorities w) (<[b := f v]> (builders w)) (calls w))
           | None => None
           end.

Definition load_authority (a : loc) : M Authority :=
  fun w => match authorities w !! a with
           | Some v => Some (v, w)
           | None => None
           end.

(** [&UpdateBuilder{...}]: a new object at an address not in use. *)
Definition alloc_builder (v : UpdateBuilder) : M loc :=
  fun w => let b := fresh (dom (builders w)) in
           Some (b, mkWorld (authorities w) (<[b := v]> (builders w)) (calls w)).

Definition record (c : Call) : M unit :=
  fun w => Some (tt, mkWorld (authorities w) (builders w) (calls w ++ [c])).

End Machine.

Declare Scope go_scope.
Delimit Scope go_scope with go.
Notation "'do' x <- m ; k" := (bind m (fun x => k))
  (at level 10, x name, m at level 100, k at level 200) : go_scope.
Notation "m ;; k" := (bind m (fun _ => k))
  (at level 100, k at level 200, right associativity) : go_scope.
Open Scope go_scope.

Section Builder.
Context `{AUMMethods}.

(** A call to a collaborator is recorded, then answered. *)
Definition call_GetKey (s : State) (id : KeyID) : M (Result Key) :=
  record (CallGetKey s id);; ret (GetKey s id).

Definition call_SignAUM (signer : Signer) (h : AUMSigHash) : M (Result (list Signature)) :=
  record (CallSignAUM h);; ret (SignAUM signer h).

Definition call_StaticValidate (u : AUM) : M (option error) :=
  record (CallStaticValidate u);; ret (StaticValidate u).

Definition call_applyVerifiedAUM (s : State) (u : AUM) : M (Result State) :=
  record (CallApplyVerifiedAUM s u);; ret (applyVerifiedAUM s u).

(** ** builder.go *)

(** [func (b *UpdateBuilder) mkUpdate(update AUM) error].  [update] is the
    function's own copy of the message; the result is the returned error,
    [None] for nil. *)
Definition mkUpdate (b : loc) (update : AUM) : M (option error) :=
  do bv <- load_builder b;
  let prevHash := vec_to_list (b_parent bv) in
  let update := set_PrevAUMHash prevHash update in
  do signed <-
    match b_signer bv with
    | Some signer =>
        do r <- call_SignAUM signer (SigHash update);
        match r with
        | Err err => ret (Err (SigningFailed err))
        | Ok sigs => ret (Ok (set_Signatures (Signatures update ++ sigs) update))
        end
    | None => ret (Ok update)
    end;
  match signed with
  | Err e => ret (Some e)
  | Ok update =>
      do invalid <- call_StaticValidate update;
      match invalid with
      | Some err => ret (Some (UpdateInvalid err))
      | None =>
          do r <- call_applyVerifiedAUM (b_state bv) update;
          match r with
          | Err err => ret (Some (CannotApply err))
          | Ok state =>
              store_builder b (set_b_state state);;
              store_builder b (set_b_parent (Hash update));;
              store_builder b (fun v => set_b_out (b_out v ++ [update]) v);;
              ret None
          end
      end
  end.

(** [func (b *UpdateBuilder) AddKey(key Key) error]. *)
Definition AddKey (b : loc) (key : Key) : M (option error) :=
  do bv <- load_builder b;
  do r <- call_GetKey (b_state bv) (Key_ID key);
  match r with
  | Ok _ => ret (Some (KeyAlreadyExists key))
  | Err _ => mkUpdate b (mkAUM AUMAddKey [] (Some key) [] None None [])
  end.

(** [func (b *UpdateBuilder) RemoveKey(keyID tkatype.KeyID) error]. *)
Definition RemoveKey (b : loc) (keyID : KeyID) : M (option error) :=
  do bv <- load_builder b;
  do r <- call_GetKey (b_state bv) keyID;
  match r with
  | Err err => ret (Some (FailedReadingKey keyID err))
  | Ok _ => mkUpdate b (mkAUM AUMRemoveKey [] None keyID None None [])
  end.

(** [func (b *UpdateBuilder) SetKeyVote(keyID tkatype.KeyID, votes uint) error]. *)
Definition SetKeyVote (b : loc) (keyID : KeyID) (votes : N) : M (option error) :=
  do bv <- load_builder b;
  do r <- call_GetKey (b_state bv) keyID;
  match r with
  | Err err => ret (Some (FailedReadingKey keyID err))
  | Ok _ => mkUpdate b (mkAUM AUMUpdateKey [] None keyID (Some votes) None [])
  end.

(** [func (b *UpdateBuilder) SetKeyMeta(keyID tkatype.KeyID, meta map[string]string) error].
    A nil [meta] is [None]. *)
Definition SetKeyMeta (b : loc) (keyID : KeyID) (meta : option (gmap string string))
  : M (option error) :=
  do bv <- load_builder b;
  do r <- call_GetKey (b_state bv) keyID;
  match r with
  | Err err => ret (Some (FailedReadingKey keyID err))
  | Ok _ => mkUpdate b (mkAUM AUMUpdateKey [] None keyID None meta [])
  end.

(** [func (b *UpdateBuilder) Finalize() ([]AUM, error)]. *)
Definition Finalize (b : loc) : M (list AUM * option error) :=
  do bv <- load_builder b;
  if bool_decide (0 < length (b_out bv)) then
    match b_out bv !! 0%nat with
    | None => panic
    | Some first =>
        let '(parent, _) := Parent first in
        do a <- load_authority (b_a bv);
        if bool_decide (parent <> Head a) then
          ret ([], Some (NoLongerApplies (vec_to_list parent) (vec_to_list (Head a))))
        else ret (b_out bv, None)
    end
  else ret (b_out bv, None).

(** [func (a *Authority) NewUpdater(signer Signer) *UpdateBuilder]. *)
Definition NewUpdater (a : loc) (signer : option Signer) : M loc :=
  do av <- load_authority a;
  alloc_builder (mkUpdateBuilder a signer (a_state av) (Head av) []).

End Builder.

(** ** Sessions and the vocabulary of the properties *)

Section Properties.
Context `{AUMMethods}.

(** One call on a builder: a public edit operation, or [mkUpdate] itself. *)
Inductive EditCall : Type :=
  | DoAddKey (key : Key)
  | DoRemoveKey (keyID : KeyID)
  | DoSetKeyVote (keyID : KeyID) (votes : N)
  | DoSetKeyMeta (keyID : KeyID) (meta : option (gmap string string))
  | DoMkUpdate (update : AUM).

Definition run_call (b : loc) (c : EditCall) : M (option error) :=
  match c with
  | DoAddKey key => AddKey b key
  | DoRemoveKey keyID => RemoveKey b keyID
  | DoSetKeyVote keyID votes => SetKeyVote b keyID votes
  | DoSetKeyMeta keyID meta => SetKeyMeta b keyID meta
  | DoMkUpdate update => mkUpdate b update
  end.

(** A session: the calls are made one after the other, whatever each one
    returns; the result lists the returned errors. *)
Fixpoint run_calls (b : loc) (cs : list EditCall) : M (list (option error)) :=
  match cs with
  | [] => ret []
  | c :: cs' =>
      do e <- run_call b c;
      do es <- run_calls b cs';
      ret (e :: es)
  end.

(** The candidate message once [mkUpdate] has set its [PrevAUMHash]. *)
Definition linked (bv : UpdateBuilder) (update : AUM) : AUM :=
  set_PrevAUMHash (vec_to_list (b_parent bv)) update.

(** The candidate message after the signing step: [linked] when no signer is
    configured, with the signer's signatures appended when it signs, and the
    signer's error when it does not. *)
Definition signed (bv : UpdateBuilder) (update : AUM) : Result AUM :=
  match b_signer bv with
  | None => Ok (linked bv update)
  | Some signer =>
      match SignAUM signer (SigHash (linked bv update)) with
      | Err err => Err err
      | Ok sigs =>
          Ok (set_Signatures (Signatures (linked bv update) ++ sigs) (linked bv update))
      end
  end.

(** The three ways a step of [mkUpdate] fails, with the error each one makes
    [mkUpdate] return. *)
Inductive StepFails (bv : UpdateBuilder) (update : AUM) : error -> Prop :=
  | SignerFails err :
      signed bv update = Err err ->
      StepFails bv update (SigningFailed err)
  | ValidateFails u err :
      signed bv update = Ok u ->
      StaticValidate u = Some err ->
      StepFails bv update (UpdateInvalid err)
  | ApplyFails u err :
      signed bv update = Ok u ->
      StaticValidate u = None ->
      applyVerifiedAUM (b_state bv) u = Err err ->
      StepFails bv update (CannotApply err).

(** The calls of the signing step: one call to the signer when one is
    configured, none otherwise. *)
Definition sign_calls (bv : UpdateBuilder) (update : AUM) : list Call :=
  match b_signer bv with
  | Some _ => [CallSignAUM (SigHash (linked bv update))]
  | None => []
  end.

(** [out] is a hash chain hanging from [h]: the [PrevAUMHash] of the first
    message holds the bytes of [h], that of every other message the bytes of
    the hash of the one before it. *)
Fixpoint chained (h : AUMHash) (out : list AUM) : Prop :=
  match out with
  | [] => True
  | a :: rest => PrevAUMHash a = vec_to_list h /\ chained (Hash a) rest
  end.

(** The hash of the last message of [out], or [h] when there is none. *)
Definition tip (h : AUMHash) (out : list AUM) : AUMHash :=
  match list.last out with
  | Some a => Hash a
  | None => h
  end.

(** The invariant of a session that started from the head [h]: the output
    is a hash chain hanging from [h], and the builder's parent is its tip. *)
Definition session_inv (h : AUMHash) (bv : UpdateBuilder) : Prop :=
  chained h (b_out bv) /\ b_parent bv = tip h (b_out bv).

(** The world with more recorded calls. *)
Definition after_calls (w : World) (cs : list Call) : World :=
  mkWorld (authorities w) (builders w) (calls w ++ cs).

(** The world after a builder object has been overwritten. *)
Definition with_builder (w : World) (b : loc) (bv : UpdateBuilder) : World :=
  mkWorld (authorities w) (<[b := bv]> (builders w)) (calls w).

End Properties.

(** ** A small instance, for the examples

    Two-byte hashes that tell the messages of the examples apart, and a shape
    check after the spec's invariant of [AUM] ("AddKey requires key;
    RemoveKey/UpdateKey require keyID"). *)

Definition example_Hash (u : AUM) : vec byte 2 :=
  [# match MessageKind u with
     | AUMAddKey => Byte.x01
     | AUMRemoveKey => Byte.x02
     | AUMUpdateKey => Byte.x03
     end;
     default Byte.x00 (head (match AUM_Key u with
                             | Some k => key_id k
                             | None => AUM_KeyID u
                             end)) ].

Definition example_StaticValidate (u : AUM) : option error :=
  match MessageKind u with
  | AUMAddKey => if AUM_Key u is Some _ then None else Some StructuralInvalid
  | _ => if AUM_KeyID u is [] then Some StructuralInvalid else None
  end.

Definition example_methods : AUMMethods :=
  {| AUMHashSize := 2;
     Hash := example_Hash;
     SigHash := fun u => PrevAUMHash u ++ AUM_KeyID u;
     StaticValidate := example_StaticValidate |}.

(** A signer that signs with one fixed signature, and one that refuses. *)
Definition signer_ok : Signer := mkSigner (fun h => Ok [h]).
Definition signer_broken : Signer :=
  mkSigner (fun _ => Err (OtherError "token unplugged")).

Definition keyA : Key := mkKey [Byte.x0a] 2 ∅.
Definition keyB : Key := mkKey [Byte.x0b] 1 {["owner" := "bob"]}.

Definition head0 : vec byte 2 := [# Byte.x07; Byte.x07].
Definition head1 : vec byte 2 := [# Byte.x08; Byte.x08].

(** The state [{A: votes=2}] of the spec's scenario, an Authority at
    address 1 and builders on it: at address 5 a fresh one without signer, at
    6 one whose signer refuses, at 7 one that has produced one message. *)
Definition state0 : State := {[ [Byte.x0a] := keyA ]}.

Definition authority0 : @Authority example_methods :=
  @mkAuthority example_methods head0 state0.

Definition first_update : AUM :=
  mkAUM AUMAddKey [Byte.x07; Byte.x07] (Some keyB) [] None None [].

Definition builder5 : @UpdateBuilder example_methods :=
  @mkUpdateBuilder example_methods 1%positive None state0 head0 [].
Definition builder6 : @UpdateBuilder example_methods :=
  @mkUpdateBuilder example_methods 1%positive (Some signer_broken) state0 head0 [].
Definition builder7 : @UpdateBuilder example_methods :=
  @mkUpdateBuilder example_methods 1%positive (Some signer_ok) (<[ [Byte.x0b] := keyB ]> state0)
                  (example_Hash first_update) [first_update].

Definition world0 : @World example_methods :=
  @mkWorld example_methods {[ 1%positive := authority0 ]}
          {[ 5%positive := builder5; 6%positive := builder6; 7%positive := builder7 ]}
          [].

(** The keys of a state, with their votes and metadata, as a list. *)
Definition show_state (s : State) : list (KeyID * N * list (string * string)) :=
  (fun kv => (kv.1, key_votes kv.2, map_to_list (key_meta kv.2))) <$> map_to_list s.

(** [world0] after a concurrent commit has moved the Authority's head. *)
Definition world1 : @World example_methods :=
  @mkWorld example_methods
    {[ 1%positive := @mkAuthority example_methods head1 state0 ]}
    (builders world0) [].

(** ** More vocabulary for sessions *)

Section SessionVocabulary.
Context `{AUMMethods}.

(** The message a call hands to [mkUpdate]: the composite literal each
    public operation writes, or the message itself. *)
Definition call_message (c : EditCall) : AUM :=
  match c with
  | DoAddKey key => mkAUM AUMAddKey [] (Some key) [] None None []
  | DoRemoveKey keyID => mkAUM AUMRemoveKey [] None keyID None None []
  | DoSetKeyVote keyID votes => mkAUM AUMUpdateKey [] None keyID (Some votes) None []
  | DoSetKeyMeta keyID meta => mkAUM AUMUpdateKey [] None keyID None meta []
  | DoMkUpdate update => update
  end.

(** The calls of the public API. *)
Definition is_public (c : EditCall) : Prop :=
  match c with
  | DoMkUpdate _ => False
  | _ => True
  end.

(** Folding messages into a state, one [applyVerifiedAUM] after the other,
    as a replica does with the messages it receives. *)
Fixpoint replay (s : State) (out : list AUM) : Result State :=
  match out with
  | [] => Ok s
  | u :: rest =>
      match applyVerifiedAUM s u with
      | Ok s' => replay s' rest
      | Err err => Err err
      end
  end.

(** The number of calls that returned no error. *)
Definition successes (errs : list (option error)) : nat :=
  length (filter (fun e : option error => e = None) errs).

(** [u] carries the signatures of [signer] and no other: none when there is
    no signer, and otherwise what the signer returns on the signing hash of
    [u] without signatures. *)
Definition signed_by (signer : option Signer) (u : AUM) : Prop :=
  match signer with
  | None => Signatures u = []
  | Some s => SignAUM s (SigHash (set_Signatures [] u)) = Ok (Signatures u)
  end.

End SessionVocabulary.

(** * Properties *)

Section Proofs.
Context `{AUMMethods}.
Implicit Types (w : World) (b : loc) (bv : UpdateBuilder) (update u : AUM).

Lemma after_calls_nil w : after_calls w [] = w.
Proof. destruct w; unfold after_calls; simpl. by rewrite app_nil_r. Qed.

Lemma after_calls_app w cs cs' :
  after_calls (after_calls w cs) cs' = after_calls w (cs ++ cs').
Proof. unfold after_calls; simpl. by rewrite app_assoc. Qed.

(** The three assignments that end a successful [mkUpdate]. *)
Lemma commit_run w b bv st p u :
  builders w !! b = Some bv ->
  (store_builder b (set_b_state st);;
   store_builder b (set_b_parent p);;
   store_builder b (fun v => set_b_out (b_out v ++ [u]) v);;
   ret (@None error)) w
  = Some (None, with_builder w b
                  (mkUpdateBuilder (b_a bv) (b_signer bv) st p (b_out bv ++ [u]))).
Proof.
  intros Hb. unfold store_builder, bind, ret, with_builder. simpl.
  rewrite Hb. simpl. rewrite lookup_insert_eq. simpl.
  rewrite lookup_insert_eq. simpl.
  by rewrite !insert_insert_eq.
Qed.

(** What a call to [mkUpdate] returns and the world it leaves, by the
    outcome of its steps. *)
Lemma mkUpdate_run w b bv update :
  builders w !! b = Some bv ->
  mkUpdate b update w =
  Some
    match signed bv update with
    | Err err => (Some (SigningFailed err), after_calls w (sign_calls bv update))
    | Ok u =>
        match StaticValidate u with
        | Some err =>
            (Some (UpdateInvalid err),
             after_calls w (sign_calls bv update ++ [CallStaticValidate u]))
        | None =>
            let cs := sign_calls bv update ++
                      [CallStaticValidate u; CallApplyVerifiedAUM (b_state bv) u] in
            match applyVerifiedAUM (b_state bv) u with
            | Err err => (Some (CannotApply err), after_calls w cs)
            | Ok st =>
                (None,
                 with_builder (after_calls w cs) b
                   (mkUpdateBuilder (b_a bv) (b_signer bv) st (Hash u)
                                    (b_out bv ++ [u])))
            end
        end
    end.
Proof.
  intros Hb.
  assert (Hrest : forall w0 u, builders w0 !! b = Some bv ->
    (do invalid <- call_StaticValidate u;
     match invalid with
     | Some err => ret (Some (UpdateInvalid err))
     | None =>
         do r <- call_applyVerifiedAUM (b_state bv) u;
         match r with
         | Err err => ret (Some (CannotApply err))
         | Ok state =>
             store_builder b (set_b_state state);;
             store_builder b (set_b_parent (Hash u));;
             store_builder b (fun v => set_b_out (b_out v ++ [u]) v);;
             ret None
         end
     end) w0 =
    Some match StaticValidate u with
         | Some err => (Some (UpdateInvalid err), after_calls w0 [CallStaticValidate u])
         | None =>
             let cs := [CallStaticValidate u; CallApplyVerifiedAUM (b_state bv) u] in
             match applyVerifiedAUM (b_state bv) u with
             | Err err => (Some (CannotApply err), after_calls w0 cs)
             | Ok st =>
                 (None, with_builder (after_calls w0 cs) b
                          (mkUpdateBuilder (b_a bv) (b_signer bv) st (Hash u)
                                           (b_out bv ++ [u])))
             end
         end).
  { intros w0 u Hb0.
    unfold call_StaticValidate, call_applyVerifiedAUM, bind at 1 2, record, ret at 1.
    simpl. destruct (StaticValidate u) as [err|]; [reflexivity|].
    unfold bind at 1 2, ret at 1. simpl.
    destruct (applyVerifiedAUM (b_state bv) u) as [st|err]; simpl.
    - rewrite (commit_run _ b bv); [|exact Hb0].
      unfold after_calls. simpl. by rewrite <- app_assoc.
    - unfold ret, after_calls. simpl. by rewrite <- app_assoc. }
  unfold mkUpdate, bind at 1, load_builder. rewrite Hb.
  fold (linked bv update).
  unfold signed, sign_calls. destruct (b_signer bv) as [signer|].
  - unfold call_SignAUM, bind at 1 2 3, record, ret at 1. simpl.
    destruct (SignAUM signer (SigHash (linked bv update))) as [sigs|err];
      unfold ret at 1; simpl.
    + refine (eq_trans
        (Hrest (after_calls w [CallSignAUM (SigHash (linked bv update))]) _ Hb) _).
      destruct (StaticValidate _); [by rewrite after_calls_app|].
      simpl. destruct (applyVerifiedAUM _ _); by rewrite after_calls_app.
    + reflexivity.
  - unfold bind at 1, ret at 1. rewrite Hrest; [|exact Hb].
    destruct (StaticValidate _); [reflexivity|].
    simpl. destruct (applyVerifiedAUM _ _); reflexivity.
Qed.

Lemma signed_linked bv update u :
  signed bv update = Ok u ->
  PrevAUMHash u = vec_to_list (b_parent bv) /\
  set_Signatures (Signatures update) u = linked bv update.
Proof.
  unfold signed. destruct (b_signer bv) as [signer|].
  - destruct (SignAUM signer _) as [sigs|]; [|discriminate].
    intros [= <-]. split; reflexivity.
  - intros [= <-]. split; [reflexivity|]. by destruct update.
Qed.

Lemma with_builder_lookup w b bv : builders (with_builder w b bv) !! b = Some bv.
Proof. unfold with_builder; simpl. apply lookup_insert_eq. Qed.

(** ** Atomicity of [mkUpdate] *)

(** C1.  Take a builder [bv] at address [b] and any candidate message.  If a
    step of [mkUpdate] fails (the signer returns an error, [StaticValidate]
    fails or [applyVerifiedAUM] fails), the call returns the error of that
    step and the builder objects of the world are the ones before the call;
    and whenever [mkUpdate] returns an error, a step has failed and the
    builder still has the state, the parent and the output list it had. *)
Theorem mkUpdate_failure_is_atomic w b bv update :
  builders w !! b = Some bv ->
  (forall err, StepFails bv update err ->
     exists w', mkUpdate b update w = Some (Some err, w') /\
                builders w' = builders w /\ authorities w' = authorities w) /\
  (forall err w', mkUpdate b update w = Some (Some err, w') ->
     StepFails bv update err /\
     builders w' = builders w /\
     exists bv', builders w' !! b = Some bv' /\
       b_state bv' = b_state bv /\ b_parent bv' = b_parent bv /\
       b_out bv' = b_out bv).
Proof.
  intros Hb. pose proof (mkUpdate_run w b bv update Hb) as Hrun. split.
  - intros err Hfail. rewrite Hrun.
    destruct Hfail as [err Hs | u err Hs Hv | u err Hs Hv Ha].
    + rewrite Hs. eexists; split; [reflexivity|]. by split.
    + rewrite Hs, Hv. eexists; split; [reflexivity|]. by split.
    + rewrite Hs, Hv. simpl. rewrite Ha. eexists; split; [reflexivity|]. by split.
  - intros err w' Hret. rewrite Hrun in Hret.
    destruct (signed bv update) as [u|e] eqn:Hs.
    + destruct (StaticValidate u) as [e|] eqn:Hv.
      * injection Hret as <- <-. split; [by eapply ValidateFails|].
        split; [done|]. exists bv. by rewrite <- Hb.
      * simpl in Hret. destruct (applyVerifiedAUM (b_state bv) u) as [st|e] eqn:Ha;
          [discriminate|].
        injection Hret as <- <-. split; [by eapply ApplyFails|].
        split; [done|]. exists bv. by rewrite <- Hb.
    + injection Hret as <- <-. split; [by apply SignerFails|].
      split; [done|]. exists bv. by rewrite <- Hb.
Qed.

(** ** What a successful [mkUpdate] commits *)

(** C2.  [mkUpdate] returns no error exactly when signing, [StaticValidate]
    and [applyVerifiedAUM] all succeed.  The candidate [u] it then commits is
    the message passed in with [PrevAUMHash] set to the builder's parent (and
    the signatures of the signing step); the builder's state becomes the
    State [applyVerifiedAUM] returned, its parent the candidate's [Hash()],
    and the candidate is appended to [out]. *)
Theorem mkUpdate_success_commits w b bv update :
  builders w !! b = Some bv ->
  ((exists w', mkUpdate b update w = Some (None, w')) <->
   (exists u st, signed bv update = Ok u /\ StaticValidate u = None /\
                 applyVerifiedAUM (b_state bv) u = Ok st)) /\
  (forall w', mkUpdate b update w = Some (None, w') ->
     exists u st,
       signed bv update = Ok u /\ StaticValidate u = None /\
       applyVerifiedAUM (b_state bv) u = Ok st /\
       PrevAUMHash u = vec_to_list (b_parent bv) /\
       set_Signatures (Signatures update) u = linked bv update /\
       builders w' =
         <[b := mkUpdateBuilder (b_a bv) (b_signer bv) st (Hash u) (b_out bv ++ [u])]>
           (builders w) /\
       authorities w' = authorities w).
Proof.
  intros Hb. pose proof (mkUpdate_run w b bv update Hb) as Hrun.
  assert (Hfwd : forall w', mkUpdate b update w = Some (None, w') ->
     exists u st,
       signed bv update = Ok u /\ StaticValidate u = None /\
       applyVerifiedAUM (b_state bv) u = Ok st /\
       PrevAUMHash u = vec_to_list (b_parent bv) /\
       set_Signatures (Signatures update) u = linked bv update /\
       builders w' =
         <[b := mkUpdateBuilder (b_a bv) (b_signer bv) st (Hash u) (b_out bv ++ [u])]>
           (builders w) /\
       authorities w' = authorities w).
  { intros w' Hret. rewrite Hrun in Hret.
    destruct (signed bv update) as [u|e] eqn:Hs; [|discriminate].
    destruct (StaticValidate u) as [e|] eqn:Hv; [discriminate|].
    simpl in Hret.
    destruct (applyVerifiedAUM (b_state bv) u) as [st|e] eqn:Ha; [|discriminate].
    injection Hret as <-. exists u, st.
    destruct (signed_linked _ _ _ Hs) as [Hp Hl]. by repeat split. }
  split; [split|exact Hfwd].
  - intros [w' Hret]. destruct (Hfwd w' Hret) as (u & st & Hs & Hv & Ha & _).
    by exists u, st.
  - intros (u & st & Hs & Hv & Ha). rewrite Hrun, Hs, Hv. simpl. rewrite Ha.
    by eexists.
Qed.

(** ** The order of the steps of [mkUpdate] *)

(** C6.  The calls [mkUpdate] makes, in the order it makes them.  With a
    signer: first the signer, on the [SigHash()] of the candidate with its
    parent set; if it fails nothing else is called; otherwise
    [StaticValidate] on the candidate with the returned signatures appended,
    and only if that succeeds [applyVerifiedAUM], on the builder's state and
    the same candidate.  Without a signer the signer is never called and the
    candidate is validated and applied with the signatures it came with. *)
Theorem mkUpdate_step_order w b bv update :
  builders w !! b = Some bv ->
  exists r w',
    mkUpdate b update w = Some (r, w') /\
    let cand := linked bv update in
    let then_validate (pre : list Call) (u : AUM) :=
      match StaticValidate u with
      | Some err =>
          calls w' = calls w ++ pre ++ [CallStaticValidate u] /\
          r = Some (UpdateInvalid err)
      | None =>
          calls w' = calls w ++ pre ++
            [CallStaticValidate u; CallApplyVerifiedAUM (b_state bv) u] /\
          r = match applyVerifiedAUM (b_state bv) u with
              | Err err => Some (CannotApply err)
              | Ok _ => None
              end
      end in
    match b_signer bv with
    | Some signer =>
        match SignAUM signer (SigHash cand) with
        | Err err =>
            calls w' = calls w ++ [CallSignAUM (SigHash cand)] /\
            r = Some (SigningFailed err)
        | Ok sigs =>
            then_validate [CallSignAUM (SigHash cand)]
                          (set_Signatures (Signatures cand ++ sigs) cand)
        end
    | None => then_validate [] cand
    end.
Proof.
  intros Hb. rewrite (mkUpdate_run w b bv update Hb).
  unfold signed, sign_calls. destruct (b_signer bv) as [signer|].
  - destruct (SignAUM signer _) as [sigs|err].
    + destruct (StaticValidate _); [by eexists _, _|]. simpl.
      destruct (applyVerifiedAUM _ _); by eexists _, _.
    + by eexists _, _.
  - destruct (StaticValidate _); [by eexists _, _|]. simpl.
    destruct (applyVerifiedAUM _ _); by eexists _, _.
Qed.

(** ** The public edit operations *)

Ltac run_precheck Hb :=
  unfold call_GetKey, bind at 1 2 3, load_builder, record, ret, GetKey;
  rewrite Hb; simpl;
  match goal with |- context [ ?s !! ?k ] => destruct (s !! k) end;
  reflexivity.

Lemma AddKey_run w b bv key :
  builders w !! b = Some bv ->
  AddKey b key w =
  let w1 := after_calls w [CallGetKey (b_state bv) (Key_ID key)] in
  match b_state bv !! Key_ID key with
  | Some _ => Some (Some (KeyAlreadyExists key), w1)
  | None => mkUpdate b (mkAUM AUMAddKey [] (Some key) [] None None []) w1
  end.
Proof. intros Hb. unfold AddKey. run_precheck Hb. Qed.

Lemma RemoveKey_run w b bv keyID :
  builders w !! b = Some bv ->
  RemoveKey b keyID w =
  let w1 := after_calls w [CallGetKey (b_state bv) keyID] in
  match b_state bv !! keyID with
  | None => Some (Some (FailedReadingKey keyID NotFound), w1)
  | Some _ => mkUpdate b (mkAUM AUMRemoveKey [] None keyID None None []) w1
  end.
Proof. intros Hb. unfold RemoveKey. run_precheck Hb. Qed.

Lemma SetKeyVote_run w b bv keyID votes :
  builders w !! b = Some bv ->
  SetKeyVote b keyID votes w =
  let w1 := after_calls w [CallGetKey (b_state bv) keyID] in
  match b_state bv !! keyID with
  | None => Some (Some (FailedReadingKey keyID NotFound), w1)
  | Some _ => mkUpdate b (mkAUM AUMUpdateKey [] None keyID (Some votes) None []) w1
  end.
Proof. intros Hb. unfold SetKeyVote. run_precheck Hb. Qed.

Lemma SetKeyMeta_run w b bv keyID meta :
  builders w !! b = Some bv ->
  SetKeyMeta b keyID meta w =
  let w1 := after_calls w [CallGetKey (b_state bv) keyID] in
  match b_state bv !! keyID with
  | None => Some (Some (FailedReadingKey keyID NotFound), w1)
  | Some _ => mkUpdate b (mkAUM AUMUpdateKey [] None keyID None meta []) w1
  end.
Proof. intros Hb. unfold SetKeyMeta. run_precheck Hb. Qed.

(** C5.  Each public edit operation first calls [GetKey] on the builder's
    speculative state.  [AddKey] on a key whose ID is present returns the
    "already exists" error; [RemoveKey], [SetKeyVote] and [SetKeyMeta] on an
    absent key ID return the "failed reading key" error around NotFound.  In
    these cases [GetKey] is the only call made and the builders are left as
    they were: no message is built.  When the pre-check passes, and only
    then, the operation is the call of [mkUpdate] on its message. *)
Theorem edit_operations_precheck w b bv :
  builders w !! b = Some bv ->
  let checked id := after_calls w [CallGetKey (b_state bv) id] in
  (forall id, builders (checked id) = builders w /\
              authorities (checked id) = authorities w) /\
  (forall key,
     (is_Some (b_state bv !! Key_ID key) ->
        AddKey b key w = Some (Some (KeyAlreadyExists key), checked (Key_ID key))) /\
     (b_state bv !! Key_ID key = None ->
        AddKey b key w =
        mkUpdate b (mkAUM AUMAddKey [] (Some key) [] None None [])
                 (checked (Key_ID key)))) /\
  (forall keyID,
     (b_state bv !! keyID = None ->
        RemoveKey b keyID w =
          Some (Some (FailedReadingKey keyID NotFound), checked keyID) /\
        (forall votes, SetKeyVote b keyID votes w =
          Some (Some (FailedReadingKey keyID NotFound), checked keyID)) /\
        (forall meta, SetKeyMeta b keyID meta w =
          Some (Some (FailedReadingKey keyID NotFound), checked keyID))) /\
     (is_Some (b_state bv !! keyID) ->
        RemoveKey b keyID w =
          mkUpdate b (mkAUM AUMRemoveKey [] None keyID None None []) (checked keyID) /\
        (forall votes, SetKeyVote b keyID votes w =
          mkUpdate b (mkAUM AUMUpdateKey [] None keyID (Some votes) None [])
                   (checked keyID)) /\
        (forall meta, SetKeyMeta b keyID meta w =
          mkUpdate b (mkAUM AUMUpdateKey [] None keyID None meta [])
                   (checked keyID)))).
Proof.
  intros Hb checked. split; [by intros id|]. split.
  - intros key. rewrite (AddKey_run w b bv key Hb). split.
    + by intros [k ->].
    + by intros ->.
  - intros keyID. split.
    + intros Hk. split; [|split]; intros.
      * by rewrite (RemoveKey_run w b bv keyID Hb), Hk.
      * by rewrite (SetKeyVote_run w b bv keyID votes Hb), Hk.
      * by rewrite (SetKeyMeta_run w b bv keyID meta Hb), Hk.
    + intros [k Hk]. split; [|split]; intros.
      * by rewrite (RemoveKey_run w b bv keyID Hb), Hk.
      * by rewrite (SetKeyVote_run w b bv keyID votes Hb), Hk.
      * by rewrite (SetKeyMeta_run w b bv keyID meta Hb), Hk.
Qed.

(** C9, as amended.  [SetKeyVote] on a key ID absent from the speculative
    state returns the "failed reading key" error around NotFound and leaves
    the builders as they were.  On a present key ID, when the signing step
    (if a signer is configured) and [StaticValidate] succeed on the message
    it builds, it returns no error: the message [u] it appends is an
    UpdateKey for that ID that carries the new votes and no metadata, and in
    the new speculative state the key has the new vote weight, the identifier
    and metadata it had, and every other key is as before. *)
Theorem SetKeyVote_updates_votes_only w b bv keyID votes :
  builders w !! b = Some bv ->
  (b_state bv !! keyID = None ->
     exists w', SetKeyVote b keyID votes w =
                  Some (Some (FailedReadingKey keyID NotFound), w') /\
                builders w' = builders w) /\
  (forall k u,
     b_state bv !! keyID = Some k ->
     signed bv (mkAUM AUMUpdateKey [] None keyID (Some votes) None []) = Ok u ->
     StaticValidate u = None ->
     exists w' st,
       SetKeyVote b keyID votes w = Some (None, w') /\
       builders w' !! b =
         Some (mkUpdateBuilder (b_a bv) (b_signer bv) st (Hash u) (b_out bv ++ [u])) /\
       MessageKind u = AUMUpdateKey /\ AUM_KeyID u = keyID /\
       Votes u = Some votes /\ Meta u = None /\
       st !! keyID = Some (mkKey (key_id k) votes (key_meta k)) /\
       (forall id, id <> keyID -> st !! id = b_state bv !! id)).
Proof.
  intros Hb. rewrite (SetKeyVote_run w b bv keyID votes Hb). split.
  - intros ->. by eexists.
  - intros k u Hk Hs Hv. rewrite Hk. simpl.
    rewrite (mkUpdate_run _ b bv); [|exact Hb]. rewrite Hs, Hv. simpl.
    assert (Hu : MessageKind u = AUMUpdateKey /\ AUM_KeyID u = keyID /\
                 Votes u = Some votes /\ Meta u = None).
    { revert Hs. unfold signed. destruct (b_signer bv) as [signer|].
      - destruct (SignAUM signer _); [|discriminate]. by intros [= <-].
      - by intros [= <-]. }
    destruct Hu as (Hkind & Hid & Hvotes & Hmeta).
    unfold applyVerifiedAUM, GetKey. rewrite Hkind, Hid, Hk, Hvotes, Hmeta.
    eexists _, _. split; [reflexivity|].
    split; [apply with_builder_lookup|].
    repeat split.
    + apply lookup_insert_eq.
    + intros id Hne. by apply lookup_insert_ne.
Qed.

(** ** [Finalize] and [NewUpdater] *)

Lemma decode_hash_to_list n (h : vec byte n) : decode_hash n (vec_to_list h) = h.
Proof.
  apply vec_eq. intros i. unfold decode_hash. rewrite lookup_fun_to_vec.
  by rewrite (proj1 (vlookup_lookup h i (h !!! i)) eq_refl).
Qed.

(** C3.  When the builder has produced at least one message, [Finalize]
    compares the parent declared by the first one with the [Head()] of the
    Authority object as it is in the world in which [Finalize] runs.  If they
    differ it returns an error and no message; if they are equal it returns
    the whole output list and no error.  Neither the builder's own [parent]
    field nor any earlier head takes part. *)
Theorem Finalize_checks_current_head w b bv first av :
  builders w !! b = Some bv ->
  b_out bv !! 0%nat = Some first ->
  authorities w !! b_a bv = Some av ->
  Finalize b w =
  Some (if decide ((Parent first).1 = Head av)
        then (b_out bv, None)
        else ([], Some (NoLongerApplies (vec_to_list (Parent first).1)
                                        (vec_to_list (Head av)))),
        w).
Proof.
  intros Hb Hfirst Ha. unfold Finalize, bind at 1, load_builder. rewrite Hb.
  rewrite bool_decide_eq_true_2.
  2:{ destruct (b_out bv); [discriminate|simpl; lia]. }
  rewrite Hfirst. unfold Parent. simpl.
  unfold bind, load_authority, ret. rewrite Ha.
  destruct (decide (decode_hash AUMHashSize (PrevAUMHash first) = Head av)) as [Heq|Hne].
  - by rewrite bool_decide_eq_false_2 by (by intros ?).
  - by rewrite bool_decide_eq_true_2.
Qed.

(** C10.  On a builder that has produced no message, [Finalize] returns the
    empty list and no error in every world: whatever the Authority's head is
    by then, and without reading the Authority at all. *)
Theorem Finalize_empty_session w b bv :
  builders w !! b = Some bv ->
  b_out bv = [] ->
  Finalize b w = Some (([], None), w).
Proof.
  intros Hb Hout. unfold Finalize, bind, load_builder, ret. rewrite Hb, Hout.
  reflexivity.
Qed.

(** C7.  [NewUpdater] on an Authority [av] at address [a] returns the
    address [b] of a new builder (nothing was allocated at [b] before) that
    points to [a], holds the given signer, whose parent is [av]'s [Head()],
    whose speculative state is [av]'s state and whose output list is empty.
    Nothing else in the world changes. *)
Theorem NewUpdater_snapshots w a av signer :
  authorities w !! a = Some av ->
  exists b,
    NewUpdater a signer w =
      Some (b, with_builder w b (mkUpdateBuilder a signer (a_state av) (Head av) [])) /\
    builders w !! b = None.
Proof.
  intros Ha. exists (fresh (dom (builders w))). split.
  - unfold NewUpdater, bind, load_authority, alloc_builder. by rewrite Ha.
  - apply not_elem_of_dom. apply is_fresh.
Qed.

(** ** Sessions *)

(** One call on a builder [bv] either fails and leaves every builder as it
    was, or appends one message whose [PrevAUMHash] is [bv]'s parent and
    moves the parent to that message's hash.  The Authority objects are not
    written either way. *)
Lemma run_call_cases w b bv c :
  builders w !! b = Some bv ->
  exists e w',
    run_call b c w = Some (e, w') /\
    authorities w' = authorities w /\
    ((e <> None /\ builders w' = builders w) \/
     (e = None /\ exists u st,
        PrevAUMHash u = vec_to_list (b_parent bv) /\
        builders w' =
          <[b := mkUpdateBuilder (b_a bv) (b_signer bv) st (Hash u) (b_out bv ++ [u])]>
            (builders w))).
Proof.
  intros Hb.
  assert (Hmk : forall update cs,
    exists e w',
      mkUpdate b update (after_calls w cs) = Some (e, w') /\
      authorities w' = authorities w /\
      ((e <> None /\ builders w' = builders w) \/
       (e = None /\ exists u st,
          PrevAUMHash u = vec_to_list (b_parent bv) /\
          builders w' =
            <[b := mkUpdateBuilder (b_a bv) (b_signer bv) st (Hash u) (b_out bv ++ [u])]>
              (builders w)))).
  { intros update cs. rewrite (mkUpdate_run (after_calls w cs) b bv update Hb).
    destruct (signed bv update) as [u|e] eqn:Hs.
    - destruct (StaticValidate u) as [e|].
      + eexists _, _. split; [reflexivity|]. split; [done|]. by left.
      + simpl. destruct (applyVerifiedAUM (b_state bv) u) as [st|e].
        * eexists _, _. split; [reflexivity|]. split; [done|]. right.
          split; [done|]. exists u, st.
          by destruct (signed_linked _ _ _ Hs).
        * eexists _, _. split; [reflexivity|]. split; [done|]. by left.
    - eexists _, _. split; [reflexivity|]. split; [done|]. by left. }
  destruct c as [key|keyID|keyID votes|keyID meta|update]; simpl.
  - rewrite (AddKey_run w b bv key Hb). simpl.
    destruct (b_state bv !! Key_ID key); [|apply Hmk].
    eexists _, _. split; [reflexivity|]. split; [done|]. by left.
  - rewrite (RemoveKey_run w b bv keyID Hb). simpl.
    destruct (b_state bv !! keyID); [apply Hmk|].
    eexists _, _. split; [reflexivity|]. split; [done|]. by left.
  - rewrite (SetKeyVote_run w b bv keyID votes Hb). simpl.
    destruct (b_state bv !! keyID); [apply Hmk|].
    eexists _, _. split; [reflexivity|]. split; [done|]. by left.
  - rewrite (SetKeyMeta_run w b bv keyID meta Hb). simpl.
    destruct (b_state bv !! keyID); [apply Hmk|].
    eexists _, _. split; [reflexivity|]. split; [done|]. by left.
  - pose proof (Hmk update []) as Hm. by rewrite after_calls_nil in Hm.
Qed.

(** C8.  No sequence of calls on a builder ([AddKey], [RemoveKey],
    [SetKeyVote], [SetKeyMeta] or [mkUpdate] itself) writes to an Authority:
    the session runs to its end and the Authority objects of the world, heads
    and States, are the ones before it.  The other builders are not written
    to either. *)
Theorem edits_leave_authorities_unchanged cs : forall w b bv,
  builders w !! b = Some bv ->
  exists errs w',
    run_calls b cs w = Some (errs, w') /\
    authorities w' = authorities w /\
    (forall b', b' <> b -> builders w' !! b' = builders w !! b').
Proof.
  induction cs as [|c cs IH]; intros w b bv Hb.
  - exists [], w. by repeat split.
  - destruct (run_call_cases w b bv c Hb) as (e & w1 & Hrun & Hauth & Hcase).
    assert (Hb1 : exists bv1, builders w1 !! b = Some bv1 /\
              forall b', b' <> b -> builders w1 !! b' = builders w !! b').
    { destruct Hcase as [[_ ->]|[_ (u & st & _ & ->)]].
      - by exists bv.
      - eexists. split; [apply lookup_insert_eq|].
        intros b' Hne. by apply lookup_insert_ne. }
    destruct Hb1 as (bv1 & Hb1 & Hother1).
    destruct (IH w1 b bv1 Hb1) as (errs & w' & Hruns & Hauth' & Hother').
    exists (e :: errs), w'. split; [|split].
    + simpl. unfold bind at 1. rewrite Hrun. unfold bind at 1. rewrite Hruns.
      reflexivity.
    + by rewrite Hauth'.
    + intros b' Hne. by rewrite Hother', Hother1.
Qed.

Lemma Parent_of_bytes u (h : AUMHash) :
  PrevAUMHash u = vec_to_list h -> (Parent u).1 = h.
Proof. intros Hp. unfold Parent. simpl. rewrite Hp. apply decode_hash_to_list. Qed.

Lemma tip_snoc (h : AUMHash) out u : tip h (out ++ [u]) = Hash u.
Proof. unfold tip. by rewrite last_snoc. Qed.

Lemma tip_cons (h : AUMHash) a out : tip h (a :: out) = tip (Hash a) out.
Proof. unfold tip. rewrite last_cons. by destruct (list.last out). Qed.

Lemma chained_snoc out : forall (h : AUMHash) u,
  chained h out ->
  PrevAUMHash u = vec_to_list (tip h out) ->
  chained h (out ++ [u]).
Proof.
  induction out as [|a out IH]; intros h u Hc Hp; simpl.
  - by split.
  - destruct Hc as [Ha Hc]. split; [done|]. apply IH; [done|].
    rewrite Hp. f_equal. apply tip_cons.
Qed.

Lemma chained_lookup out : forall (h : AUMHash),
  chained h out ->
  (forall a0, out !! 0%nat = Some a0 -> PrevAUMHash a0 = vec_to_list h) /\
  (forall i ai aj, out !! i = Some ai -> out !! S i = Some aj ->
     PrevAUMHash aj = vec_to_list (Hash ai)).
Proof.
  induction out as [|a out IH]; intros h Hc.
  - split; intros; discriminate.
  - destruct Hc as [Ha Hc]. destruct (IH _ Hc) as [IH0 IHS]. split.
    + by intros a0 [= <-].
    + intros [|i] ai aj Hi Hj; simpl in *.
      * injection Hi as <-. by apply IH0.
      * by eapply IHS.
Qed.

(** Every call on a builder preserves the session invariant. *)
Lemma run_call_preserves_inv w b bv c (h : AUMHash) :
  builders w !! b = Some bv ->
  session_inv h bv ->
  exists e w' bv',
    run_call b c w = Some (e, w') /\
    builders w' !! b = Some bv' /\
    session_inv h bv'.
Proof.
  intros Hb [Hc Hp].
  destruct (run_call_cases w b bv c Hb) as (e & w' & Hrun & _ & Hcase).
  destruct Hcase as [[_ Hsame]|[_ (u & st & Hprev & Hnew)]].
  - exists e, w', bv. rewrite Hsame. by repeat split.
  - exists e, w'. eexists. split; [done|]. rewrite Hnew.
    split; [apply lookup_insert_eq|]. split; simpl.
    + apply chained_snoc; [done|]. by rewrite <- Hp.
    + by rewrite tip_snoc.
Qed.

Lemma run_calls_preserve_inv cs : forall w b bv (h : AUMHash),
  builders w !! b = Some bv ->
  session_inv h bv ->
  exists errs w' bv',
    run_calls b cs w = Some (errs, w') /\
    builders w' !! b = Some bv' /\
    session_inv h bv'.
Proof.
  induction cs as [|c cs IH]; intros w b bv h Hb Hinv.
  - by exists [], w, bv.
  - destruct (run_call_preserves_inv w b bv c h Hb Hinv)
      as (e & w1 & bv1 & Hrun & Hb1 & Hinv1).
    destruct (IH w1 b bv1 h Hb1 Hinv1) as (errs & w' & bv' & Hruns & Hb' & Hinv').
    exists (e :: errs), w', bv'. split; [|by split].
    simpl. unfold bind at 1. rewrite Hrun. unfold bind at 1. by rewrite Hruns.
Qed.

(** C4.  Take the builder [NewUpdater] creates on an Authority [av] and
    make any sequence of calls on it.  The session runs to its end; the
    messages it has produced form a hash chain: the first one declares
    [av]'s head, as it was when the builder was created, as its parent, and
    every other one declares the hash of the message before it (both as the
    bytes of [PrevAUMHash] and as [Parent()] decodes them).  The builder's
    parent is the hash of the last message, or that head when there is
    none: the session invariant holds. *)
Theorem session_is_hash_chain w a av signer cs :
  authorities w !! a = Some av ->
  exists b w1 errs w2 bv,
    NewUpdater a signer w = Some (b, w1) /\
    run_calls b cs w1 = Some (errs, w2) /\
    builders w2 !! b = Some bv /\
    session_inv (Head av) bv /\
    (forall a0, b_out bv !! 0%nat = Some a0 ->
       PrevAUMHash a0 = vec_to_list (Head av) /\ (Parent a0).1 = Head av) /\
    (forall i ai aj, b_out bv !! i = Some ai -> b_out bv !! S i = Some aj ->
       PrevAUMHash aj = vec_to_list (Hash ai) /\ (Parent aj).1 = Hash ai).
Proof.
  intros Ha.
  set (bv0 := mkUpdateBuilder a signer (a_state av) (Head av) []).
  set (b := fresh (dom (builders w))).
  assert (Hnew : NewUpdater a signer w = Some (b, with_builder w b bv0)).
  { unfold NewUpdater, bind, load_authority, alloc_builder. by rewrite Ha. }
  assert (Hinv0 : session_inv (Head av) bv0) by (by split).
  destruct (run_calls_preserve_inv cs (with_builder w b bv0) b bv0 (Head av)
              (with_builder_lookup w b bv0) Hinv0)
    as (errs & w2 & bv & Hruns & Hb & Hinv).
  exists b, (with_builder w b bv0), errs, w2, bv.
  destruct (chained_lookup _ _ (proj1 Hinv)) as [H0 HS].
  do 4 (split; [done|]). split.
  - intros a0 Ha0. split; [|apply Parent_of_bytes]; by apply H0.
  - intros i ai aj Hi Hj. split; [|apply Parent_of_bytes]; by eapply HS.
Qed.

End Proofs.

(** * The properties on the example world *)

Section Examples.
#[local] Existing Instance example_methods.

(** The spec's scenario on the fresh builder at address 5: from
    [{A: votes=2}], add B with one vote, give it three votes, remove A.  The
    three calls succeed, the state ends as [{B: votes=3}], and the three
    messages declare the Authority's head and then each other's hash. *)
Example scenario_session :
  match run_calls 5%positive
          [DoAddKey keyB; DoSetKeyVote [Byte.x0b] 3; DoRemoveKey [Byte.x0a]] world0
  with
  | Some (errs, w) =>
      Some (errs,
            (fun bv => show_state (b_state bv)) <$> builders w !! 5%positive,
            (fun bv => PrevAUMHash <$> b_out bv) <$> builders w !! 5%positive,
            (fun bv => vec_to_list <$> (Hash <$> b_out bv)) <$> builders w !! 5%positive)
  | None => None
  end =
  Some ([None; None; None],
        Some [ ([Byte.x0b], 3%N, [("owner", "bob")]) ],
        Some [ [Byte.x07; Byte.x07]; [Byte.x01; Byte.x0b]; [Byte.x03; Byte.x0b] ],
        Some [ [Byte.x01; Byte.x0b]; [Byte.x03; Byte.x0b]; [Byte.x02; Byte.x0a] ]).
Proof. vm_compute. reflexivity. Qed.

(** On the builder whose signer refuses, [mkUpdate] returns the signing
    error and leaves builders and authorities as they were. *)
Lemma mkUpdate_failure_is_atomic_witness :
  builders world0 !! 6%positive = Some builder6 /\
  StepFails builder6 first_update (SigningFailed (OtherError "token unplugged")) /\
  exists w',
    mkUpdate 6%positive first_update world0 =
      Some (Some (SigningFailed (OtherError "token unplugged")), w') /\
    builders w' = builders world0 /\ authorities w' = authorities world0.
Proof.
  assert (Hf : StepFails builder6 first_update
                 (SigningFailed (OtherError "token unplugged"))).
  { apply SignerFails. reflexivity. }
  split; [reflexivity|]. split; [exact Hf|].
  exact (proj1 (mkUpdate_failure_is_atomic world0 6%positive builder6 first_update
                  eq_refl) _ Hf).
Defined.

(** On the fresh builder, adding B goes through. *)
Lemma mkUpdate_success_commits_witness :
  builders world0 !! 5%positive = Some builder5 /\
  exists w', mkUpdate 5%positive (mkAUM AUMAddKey [] (Some keyB) [] None None []) world0
             = Some (None, w').
Proof.
  split; [reflexivity|].
  apply (proj2 (proj1 (mkUpdate_success_commits world0 5%positive builder5
                         (mkAUM AUMAddKey [] (Some keyB) [] None None []) eq_refl))).
  exists first_update, (<[ [Byte.x0b] := keyB ]> state0).
  split; [reflexivity|]. split; reflexivity.
Defined.

(** On the builder that signs: the signer is called on the signing hash of
    the linked message, then the signed message is validated, then applied. *)
Lemma mkUpdate_step_order_witness :
  builders world0 !! 7%positive = Some builder7 /\
  exists r w',
    mkUpdate 7%positive (mkAUM AUMRemoveKey [] None [Byte.x0a] None None []) world0
      = Some (r, w') /\
    let sighash := [Byte.x01; Byte.x0b; Byte.x0a] in
    let u := mkAUM AUMRemoveKey [Byte.x01; Byte.x0b] None [Byte.x0a] None None
                   [sighash] in
    calls w' = [CallSignAUM sighash; CallStaticValidate u;
                CallApplyVerifiedAUM (b_state builder7) u] /\
    r = None.
Proof.
  split; [reflexivity|].
  destruct (mkUpdate_step_order world0 7%positive builder7
              (mkAUM AUMRemoveKey [] None [Byte.x0a] None None []) eq_refl)
    as (r & w' & Hrun & Horder).
  exists r, w'. split; [exact Hrun|]. exact Horder.
Defined.

(** On the fresh builder: A is already there, B is not. *)
Lemma edit_operations_precheck_witness :
  builders world0 !! 5%positive = Some builder5 /\
  AddKey 5%positive keyA world0 =
    Some (Some (KeyAlreadyExists keyA),
          after_calls world0 [CallGetKey state0 [Byte.x0a]]) /\
  RemoveKey 5%positive [Byte.x0b] world0 =
    Some (Some (FailedReadingKey [Byte.x0b] NotFound),
          after_calls world0 [CallGetKey state0 [Byte.x0b]]).
Proof.
  destruct (edit_operations_precheck world0 5%positive builder5 eq_refl)
    as (_ & Hadd & Hother).
  split; [reflexivity|]. split.
  - apply (proj1 (Hadd keyA)). exists keyA. reflexivity.
  - apply (proj1 (Hother [Byte.x0b])). reflexivity.
Defined.

(** On the fresh builder: A gets seven votes and keeps its (empty) metadata. *)
Lemma SetKeyVote_updates_votes_only_witness :
  builders world0 !! 5%positive = Some builder5 /\
  exists w' st,
    SetKeyVote 5%positive [Byte.x0a] 7 world0 = Some (None, w') /\
    b_state <$> builders w' !! 5%positive = Some st /\
    st !! [Byte.x0a] = Some (mkKey [Byte.x0a] 7 ∅).
Proof.
  split; [reflexivity|].
  destruct (proj2 (SetKeyVote_updates_votes_only world0 5%positive builder5
                     [Byte.x0a] 7 eq_refl)
              keyA
              (mkAUM AUMUpdateKey [Byte.x07; Byte.x07] None [Byte.x0a] (Some 7%N)
                     None [])
              eq_refl eq_refl eq_refl)
    as (w' & st & Hrun & Hb & _ & _ & _ & _ & Hk & _).
  exists w', st. split; [exact Hrun|]. split; [|exact Hk].
  rewrite Hb. reflexivity.
Defined.

(** C9 as stated fails: on the builder whose signer refuses, the key ID of
    A is present in the speculative state, and [SetKeyVote] on it returns
    the signing error; it does not succeed. *)
Lemma SetKeyVote_present_id_can_fail :
  builders world0 !! 6%positive = Some builder6 /\
  b_state builder6 !! [Byte.x0a] = Some keyA /\
  fst <$> SetKeyVote 6%positive [Byte.x0a] 3 world0 =
    Some (Some (SigningFailed (OtherError "token unplugged"))) /\
  ~ (exists w', SetKeyVote 6%positive [Byte.x0a] 3 world0 = Some (None, w')).
Proof.
  assert (Hrun : fst <$> SetKeyVote 6%positive [Byte.x0a] 3 world0 =
    Some (Some (SigningFailed (OtherError "token unplugged")))).
  { vm_compute. reflexivity. }
  split; [reflexivity|]. split; [reflexivity|]. split; [exact Hrun|].
  intros [w' Hw']. rewrite Hw' in Hrun. discriminate.
Qed.

(** The builder at 7 declares [head0]: [Finalize] refuses once the head has
    moved to [head1], and returns the message while it is still [head0]. *)
Lemma Finalize_checks_current_head_witness :
  builders world1 !! 7%positive = Some builder7 /\
  b_out builder7 !! 0%nat = Some first_update /\
  authorities world1 !! b_a builder7 = Some (mkAuthority head1 state0) /\
  Finalize 7%positive world1 =
    Some (([], Some (NoLongerApplies [Byte.x07; Byte.x07] [Byte.x08; Byte.x08])),
          world1) /\
  Finalize 7%positive world0 = Some (([first_update], None), world0).
Proof.
  split; [reflexivity|]. split; [reflexivity|]. split; [reflexivity|]. split.
  - exact (Finalize_checks_current_head world1 7%positive builder7 first_update
             (mkAuthority head1 state0) eq_refl eq_refl eq_refl).
  - exact (Finalize_checks_current_head world0 7%positive builder7 first_update
             authority0 eq_refl eq_refl eq_refl).
Defined.

(** The fresh builder finalizes to nothing although the head has moved. *)
Lemma Finalize_empty_session_witness :
  builders world1 !! 5%positive = Some builder5 /\
  b_out builder5 = [] /\
  Finalize 5%positive world1 = Some (([], None), world1).
Proof.
  split; [reflexivity|]. split; [reflexivity|].
  exact (Finalize_empty_session world1 5%positive builder5 eq_refl eq_refl).
Defined.

(** A new builder on the Authority at address 1. *)
Lemma NewUpdater_snapshots_witness :
  authorities world0 !! 1%positive = Some authority0 /\
  exists b,
    NewUpdater 1%positive (Some signer_ok) world0 =
      Some (b, with_builder world0 b
                 (mkUpdateBuilder 1%positive (Some signer_ok) state0 head0 [])) /\
    builders world0 !! b = None.
Proof.
  split; [reflexivity|].
  exact (NewUpdater_snapshots world0 1%positive authority0 (Some signer_ok) eq_refl).
Defined.

(** The scenario's calls leave the Authority as it was. *)
Lemma edits_leave_authorities_unchanged_witness :
  builders world0 !! 5%positive = Some builder5 /\
  exists errs w',
    run_calls 5%positive
      [DoAddKey keyB; DoSetKeyVote [Byte.x0b] 3; DoRemoveKey [Byte.x0a]] world0
      = Some (errs, w') /\
    authorities w' = authorities world0 /\
    (forall b', b' <> 5%positive -> builders w' !! b' = builders world0 !! b').
Proof.
  split; [reflexivity|].
  exact (edits_leave_authorities_unchanged
           [DoAddKey keyB; DoSetKeyVote [Byte.x0b] 3; DoRemoveKey [Byte.x0a]]
           world0 5%positive builder5 eq_refl).
Defined.

(** A session with a failing call in the middle (B is added twice). *)
Lemma session_is_hash_chain_witness :
  authorities world0 !! 1%positive = Some authority0 /\
  exists b w1 errs w2 bv,
    NewUpdater 1%positive None world0 = Some (b, w1) /\
    run_calls b [DoAddKey keyB; DoAddKey keyB; DoRemoveKey [Byte.x0a]] w1
      = Some (errs, w2) /\
    builders w2 !! b = Some bv /\
    session_inv head0 bv.
Proof.
  split; [reflexivity|].
  destruct (session_is_hash_chain world0 1%positive authority0 None
              [DoAddKey keyB; DoAddKey keyB; DoRemoveKey [Byte.x0a]] eq_refl)
    as (b & w1 & errs & w2 & bv & Hnew & Hrun & Hb & Hinv & _).
  exists b, w1, errs, w2, bv. split; [exact Hnew|]. split; [exact Hrun|].
  split; [exact Hb|exact Hinv].
Defined.

End Examples.

(** * Sessions as a whole *)

Section Sessions.
Context `{AUMMethods}.
Implicit Types (w : World) (b : loc) (bv : UpdateBuilder) (update u : AUM).

(** A call either fails and leaves every builder as it was, or commits the
    message [u] that signing made of [call_message c]: [u] has passed
    [StaticValidate] and [applyVerifiedAUM] has made the new state of it. *)
Lemma run_call_outcome w b bv c :
  builders w !! b = Some bv ->
  exists e w',
    run_call b c w = Some (e, w') /\
    ((e <> None /\ builders w' = builders w) \/
     (e = None /\ exists u st,
        signed bv (call_message c) = Ok u /\
        StaticValidate u = None /\
        applyVerifiedAUM (b_state bv) u = Ok st /\
        builders w' =
          <[b := mkUpdateBuilder (b_a bv) (b_signer bv) st (Hash u) (b_out bv ++ [u])]>
            (builders w))).
Proof.
  intros Hb.
  assert (Hmk : forall update cs,
    exists e w',
      mkUpdate b update (after_calls w cs) = Some (e, w') /\
      ((e <> None /\ builders w' = builders w) \/
       (e = None /\ exists u st,
          signed bv update = Ok u /\
          StaticValidate u = None /\
          applyVerifiedAUM (b_state bv) u = Ok st /\
          builders w' =
            <[b := mkUpdateBuilder (b_a bv) (b_signer bv) st (Hash u) (b_out bv ++ [u])]>
              (builders w)))).
  { intros update cs. rewrite (mkUpdate_run (after_calls w cs) b bv update Hb).
    destruct (signed bv update) as [u|e] eqn:Hs.
    - destruct (StaticValidate u) as [e|] eqn:Hv.
      + eexists _, _. split; [reflexivity|]. by left.
      + simpl. destruct (applyVerifiedAUM (b_state bv) u) as [st|e] eqn:Ha.
        * eexists _, _. split; [reflexivity|]. right.
          split; [done|]. by exists u, st.
        * eexists _, _. split; [reflexivity|]. by left.
    - eexists _, _. split; [reflexivity|]. by left. }
  destruct c as [key|keyID|keyID votes|keyID meta|update]; simpl.
  - rewrite (AddKey_run w b bv key Hb). simpl.
    destruct (b_state bv !! Key_ID key); [|apply Hmk].
    eexists _, _. split; [reflexivity|]. by left.
  - rewrite (RemoveKey_run w b bv keyID Hb). simpl.
    destruct (b_state bv !! keyID); [apply Hmk|].
    eexists _, _. split; [reflexivity|]. by left.
  - rewrite (SetKeyVote_run w b bv keyID votes Hb). simpl.
    destruct (b_state bv !! keyID); [apply Hmk|].
    eexists _, _. split; [reflexivity|]. by left.
  - rewrite (SetKeyMeta_run w b bv keyID meta Hb). simpl.
    destruct (b_state bv !! keyID); [apply Hmk|].
    eexists _, _. split; [reflexivity|]. by left.
  - pose proof (Hmk update []) as Hm. by rewrite after_calls_nil in Hm.
Qed.

(** A property of builders that every commit of a call in [P] keeps is kept
    by every session of calls in [P]. *)
Lemma run_calls_keep (P : EditCall -> Prop) (I : UpdateBuilder -> Prop) :
  (forall bv c u st,
     P c -> I bv ->
     signed bv (call_message c) = Ok u ->
     StaticValidate u = None ->
     applyVerifiedAUM (b_state bv) u = Ok st ->
     I (mkUpdateBuilder (b_a bv) (b_signer bv) st (Hash u) (b_out bv ++ [u]))) ->
  forall cs w b bv,
    Forall P cs ->
    builders w !! b = Some bv ->
    I bv ->
    exists errs w' bv',
      run_calls b cs w = Some (errs, w') /\
      builders w' !! b = Some bv' /\
      I bv'.
Proof.
  intros Hstep cs. induction cs as [|c cs IH]; intros w b bv HP Hb HI.
  - by exists [], w, bv.
  - apply Forall_cons_1 in HP as [Hc HP].
    destruct (run_call_outcome w b bv c Hb) as (e & w1 & Hrun & Hcase).
    assert (Hnext : exists bv1, builders w1 !! b = Some bv1 /\ I bv1).
    { destruct Hcase as [[_ Hsame]|[_ (u & st & Hs & Hv & Ha & Hnew)]].
      - exists bv. by rewrite Hsame.
      - eexists. rewrite Hnew. split; [apply lookup_insert_eq|].
        by eapply Hstep. }
    destruct Hnext as (bv1 & Hb1 & HI1).
    destruct (IH w1 b bv1 HP Hb1 HI1) as (errs & w' & bv' & Hruns & Hb' & HI').
    exists (e :: errs), w', bv'. split; [|by split].
    simpl. unfold bind at 1. rewrite Hrun. unfold bind at 1. by rewrite Hruns.
Qed.

Lemma NewUpdater_run w a av signer :
  authorities w !! a = Some av ->
  NewUpdater a signer w =
  Some (fresh (dom (builders w)),
        with_builder w (fresh (dom (builders w)))
          (mkUpdateBuilder a signer (a_state av) (Head av) [])).
Proof.
  intros Ha. unfold NewUpdater, bind, load_authority, alloc_builder. by rewrite Ha.
Qed.

Lemma replay_snoc out : forall (s s1 s2 : State) u,
  replay s out = Ok s1 ->
  applyVerifiedAUM s1 u = Ok s2 ->
  replay s (out ++ [u]) = Ok s2.
Proof.
  induction out as [|a out IH]; intros s s1 s2 u Hr Ha; simpl in *.
  - injection Hr as ->. by rewrite Ha.
  - destruct (applyVerifiedAUM s a) as [s'|]; [|discriminate]. by eapply IH.
Qed.

(** X1.  The speculative state of a builder is what replaying its output
    gives: after any session on the builder [NewUpdater] creates on an
    Authority [av], folding the produced messages with [applyVerifiedAUM]
    from [av]'s state of that time succeeds and ends in the builder's
    state. *)
Theorem session_state_is_replay w a av signer cs :
  authorities w !! a = Some av ->
  exists b w1 errs w2 bv,
    NewUpdater a signer w = Some (b, w1) /\
    run_calls b cs w1 = Some (errs, w2) /\
    builders w2 !! b = Some bv /\
    replay (a_state av) (b_out bv) = Ok (b_state bv).
Proof.
  intros Ha. pose proof (NewUpdater_run w a av signer Ha) as Hnew.
  set (b := fresh (dom (builders w))) in *.
  set (bv0 := mkUpdateBuilder a signer (a_state av) (Head av) []) in *.
  destruct (run_calls_keep (fun _ => True)
              (fun bv => replay (a_state av) (b_out bv) = Ok (b_state bv)))
    with (cs := cs) (w := with_builder w b bv0) (b := b) (bv := bv0)
    as (errs & w2 & bv & Hruns & Hb & Hinv).
  - intros bv c u st _ Hrep _ _ Happly. simpl. by eapply replay_snoc.
  - by apply Forall_true.
  - apply with_builder_lookup.
  - reflexivity.
  - by exists b, (with_builder w b bv0), errs, w2, bv.
Qed.

(** X2.  Every message a session has produced has passed [StaticValidate],
    in the form in which it stands in the output (parent set, signatures
    appended). *)
Theorem session_output_is_validated w a av signer cs :
  authorities w !! a = Some av ->
  exists b w1 errs w2 bv,
    NewUpdater a signer w = Some (b, w1) /\
    run_calls b cs w1 = Some (errs, w2) /\
    builders w2 !! b = Some bv /\
    Forall (fun u => StaticValidate u = None) (b_out bv).
Proof.
  intros Ha. pose proof (NewUpdater_run w a av signer Ha) as Hnew.
  set (b := fresh (dom (builders w))) in *.
  set (bv0 := mkUpdateBuilder a signer (a_state av) (Head av) []) in *.
  destruct (run_calls_keep (fun _ => True)
              (fun bv => Forall (fun u => StaticValidate u = None) (b_out bv)))
    with (cs := cs) (w := with_builder w b bv0) (b := b) (bv := bv0)
    as (errs & w2 & bv & Hruns & Hb & Hinv).
  - intros bv c u st _ Hall _ Hvalid _. simpl.
    apply Forall_app. split; [done|]. by apply Forall_singleton.
  - by apply Forall_true.
  - apply with_builder_lookup.
  - by apply Forall_nil.
  - by exists b, (with_builder w b bv0), errs, w2, bv.
Qed.

(** X3.  A session only appends to the output, one message for each call
    that returns no error and none for a call that returns one; it returns
    one result per call, and the builder keeps its Authority pointer and its
    signer. *)
Theorem session_appends_one_message_per_success cs : forall w b bv,
  builders w !! b = Some bv ->
  exists errs w' bv' new,
    run_calls b cs w = Some (errs, w') /\
    builders w' !! b = Some bv' /\
    b_out bv' = b_out bv ++ new /\
    length new = successes errs /\
    length errs = length cs /\
    b_a bv' = b_a bv /\
    b_signer bv' = b_signer bv.
Proof.
  induction cs as [|c cs IH]; intros w b bv Hb.
  - exists [], w, bv, []. by rewrite app_nil_r.
  - destruct (run_call_outcome w b bv c Hb) as (e & w1 & Hrun & Hcase).
    assert (Hrunc : forall errs w',
      run_calls b cs w1 = Some (errs, w') ->
      run_calls b (c :: cs) w = Some (e :: errs, w')).
    { intros errs w' Hruns. simpl. unfold bind at 1. rewrite Hrun.
      unfold bind at 1. by rewrite Hruns. }
    destruct Hcase as [[He Hsame]|[-> (u & st & _ & _ & _ & Hnew)]].
    + assert (Hb1 : builders w1 !! b = Some bv) by (by rewrite Hsame).
      destruct (IH w1 b bv Hb1)
        as (errs & w' & bv' & new & Hruns & Hb' & Hout & Hlen & Hn & Ha & Hs).
      exists (e :: errs), w', bv', new.
      split; [by apply Hrunc|]. do 2 (split; [done|]).
      split; [|split; [simpl; by rewrite Hn|done]].
      unfold successes in *. rewrite filter_cons_False; done.
    + assert (Hb1 : builders w1 !! b =
                Some (mkUpdateBuilder (b_a bv) (b_signer bv) st (Hash u)
                                      (b_out bv ++ [u]))).
      { rewrite Hnew. apply lookup_insert_eq. }
      destruct (IH w1 b _ Hb1)
        as (errs & w' & bv' & new & Hruns & Hb' & Hout & Hlen & Hn & Ha & Hs).
      exists (None :: errs), w', bv', (u :: new).
      split; [by apply Hrunc|]. split; [done|].
      split; [rewrite Hout; simpl; by rewrite <- app_assoc|].
      split; [|split; [simpl; by rewrite Hn|done]].
      unfold successes in *. rewrite filter_cons_True by done.
      simpl. by rewrite Hlen.
Qed.

(** What [Finalize] returns, by the builder's output and the Authority it
    points to; it panics when it has to read a nil Authority. *)
Lemma Finalize_run w b bv :
  builders w !! b = Some bv ->
  Finalize b w =
  match b_out bv with
  | [] => Some (([], None), w)
  | first :: _ =>
      match authorities w !! b_a bv with
      | None => None
      | Some av =>
          Some (if decide ((Parent first).1 = Head av)
                then (b_out bv, None)
                else ([], Some (NoLongerApplies (vec_to_list (Parent first).1)
                                                (vec_to_list (Head av)))),
                w)
      end
  end.
Proof.
  intros Hb. unfold Finalize, bind at 1, load_builder. rewrite Hb.
  destruct (b_out bv) as [|first rest] eqn:Hout; [reflexivity|].
  rewrite bool_decide_eq_true_2 by (simpl; lia). simpl.
  unfold bind, load_authority, ret.
  destruct (authorities w !! b_a bv) as [av|]; [|reflexivity].
  destruct (decide (decode_hash AUMHashSize (PrevAUMHash first) = Head av)).
  - by rewrite bool_decide_eq_false_2 by (by intros ?).
  - by rewrite bool_decide_eq_true_2.
Qed.

Lemma run_calls_authorities cs : forall w b bv errs w',
  builders w !! b = Some bv ->
  run_calls b cs w = Some (errs, w') ->
  authorities w' = authorities w.
Proof.
  induction cs as [|c cs IH]; intros w b bv errs w' Hb Hruns.
  - by injection Hruns as <- <-.
  - destruct (run_call_cases w b bv c Hb) as (e & w1 & Hrun & Hauth & Hcase).
    simpl in Hruns. unfold bind at 1 in Hruns. rewrite Hrun in Hruns.
    unfold bind at 1 in Hruns.
    destruct (run_calls b cs w1) as [[errs1 w2]|] eqn:Hruns1; [|discriminate].
    injection Hruns as <- <-. rewrite <- Hauth.
    destruct Hcase as [[_ Hsame]|[_ (u & st & _ & Hnew)]].
    + eapply (IH w1 b bv); [by rewrite Hsame|done].
    + eapply (IH w1 b); [|done]. rewrite Hnew. apply lookup_insert_eq.
Qed.

(** X4.  [Finalize] is a compare-and-swap on the head the session started
    from.  After any session on the builder [NewUpdater] creates on an
    Authority [av], [Finalize] in the world the session ends in returns the
    whole output and no error.  In any later world that still holds the
    builder, it returns the whole output exactly when the output is empty or
    the Authority's head is the one [av] had when the builder was created,
    and otherwise an error naming both heads, and no message. *)
Theorem session_finalize w a av signer cs :
  authorities w !! a = Some av ->
  exists b w1 errs w2 bv,
    NewUpdater a signer w = Some (b, w1) /\
    run_calls b cs w1 = Some (errs, w2) /\
    builders w2 !! b = Some bv /\
    Finalize b w2 = Some ((b_out bv, None), w2) /\
    (forall w3 av',
       builders w3 !! b = Some bv ->
       authorities w3 !! a = Some av' ->
       Finalize b w3 =
       Some (if decide (b_out bv = [] \/ Head av' = Head av)
             then (b_out bv, None)
             else ([], Some (NoLongerApplies (vec_to_list (Head av))
                                             (vec_to_list (Head av')))),
             w3)).
Proof.
  intros Ha. pose proof (NewUpdater_run w a av signer Ha) as Hnew.
  set (b := fresh (dom (builders w))) in *.
  set (bv0 := mkUpdateBuilder a signer (a_state av) (Head av) []) in *.
  destruct (run_calls_keep (fun _ => True)
              (fun bv => b_a bv = a /\ session_inv (Head av) bv))
    with (cs := cs) (w := with_builder w b bv0) (b := b) (bv := bv0)
    as (errs & w2 & bv & Hruns & Hb & Hba & Hinv).
  - intros bv c u st _ [Hba [Hc Hp]] Hs _ _. split; [done|].
    destruct (signed_linked _ _ _ Hs) as [Hprev _]. split; simpl.
    + apply chained_snoc; [done|]. by rewrite <- Hp.
    + by rewrite tip_snoc.
  - by apply Forall_true.
  - apply with_builder_lookup.
  - by repeat split.
  - assert (Hfin : forall w3 av',
       builders w3 !! b = Some bv ->
       authorities w3 !! a = Some av' ->
       Finalize b w3 =
       Some (if decide (b_out bv = [] \/ Head av' = Head av)
             then (b_out bv, None)
             else ([], Some (NoLongerApplies (vec_to_list (Head av))
                                             (vec_to_list (Head av')))),
             w3)).
    { intros w3 av' Hb3 Ha3. rewrite (Finalize_run w3 b bv Hb3).
      destruct (b_out bv) as [|first rest] eqn:Hout.
      - rewrite decide_True; [done|by left].
      - rewrite Hba, Ha3.
        assert (Hparent : (Parent first).1 = Head av).
        { apply Parent_of_bytes.
          destruct Hinv as [Hc _]. rewrite Hout in Hc. by destruct Hc. }
        rewrite Hparent.
        destruct (decide (Head av = Head av')) as [Heq|Hne].
        + rewrite decide_True; [done|by right].
        + rewrite decide_False; [done|]. intros [?|?]; [done|]. by apply Hne. }
    exists b, (with_builder w b bv0), errs, w2, bv.
    do 3 (split; [done|]). split; [|exact Hfin].
    rewrite (Hfin w2 av Hb).
    + rewrite decide_True; [done|by right].
    + rewrite (run_calls_authorities cs _ b bv0 errs w2
                 (with_builder_lookup w b bv0) Hruns).
      exact Ha.
Qed.

(** X5.  In a session of public operations every produced message carries
    the signatures of the builder's signer and no other: none when the
    builder has no signer, and otherwise exactly what the signer returns on
    the signing hash of that message. *)
Theorem session_messages_signed w a av signer cs :
  authorities w !! a = Some av ->
  Forall is_public cs ->
  exists b w1 errs w2 bv,
    NewUpdater a signer w = Some (b, w1) /\
    run_calls b cs w1 = Some (errs, w2) /\
    builders w2 !! b = Some bv /\
    Forall (signed_by signer) (b_out bv).
Proof.
  intros Ha Hpub. pose proof (NewUpdater_run w a av signer Ha) as Hnew.
  set (b := fresh (dom (builders w))) in *.
  set (bv0 := mkUpdateBuilder a signer (a_state av) (Head av) []) in *.
  destruct (run_calls_keep is_public
              (fun bv => b_signer bv = signer /\ Forall (signed_by signer) (b_out bv)))
    with (cs := cs) (w := with_builder w b bv0) (b := b) (bv := bv0)
    as (errs & w2 & bv & Hruns & Hb & _ & Hall).
  - intros bv c u st Hc [Hsg Hall] Hs _ _. split; [done|]. simpl.
    apply Forall_app. split; [done|]. apply Forall_singleton.
    assert (Hnosig : Signatures (call_message c) = [])
      by (by destruct c).
    revert Hs. unfold signed, signed_by. rewrite Hsg.
    destruct signer as [s|].
    + destruct (SignAUM s (SigHash (linked bv (call_message c)))) as [sigs|] eqn:Hsign;
        [|discriminate].
      intros [= <-]. simpl. rewrite Hnosig. simpl.
      rewrite <- Hsign. do 2 f_equal.
      unfold linked, set_Signatures, set_PrevAUMHash. simpl. by rewrite Hnosig.
    + intros [= <-]. simpl. exact Hnosig.
  - exact Hpub.
  - apply with_builder_lookup.
  - split; [done|]. apply Forall_nil. 
  - by exists b, (with_builder w b bv0), errs, w2, bv.
Qed.

End Sessions.

Section SessionExamples.
#[local] Existing Instance example_methods.

(** The session of the examples: B is added, added again (which fails), and
    A is removed. *)
Definition example_calls : list EditCall :=
  [DoAddKey keyB; DoAddKey keyB; DoRemoveKey [Byte.x0a]].

(** A session on a new builder of the example Authority replays. *)
Lemma session_state_is_replay_witness :
  authorities world0 !! 1%positive = Some authority0 /\
  exists b w1 errs w2 bv,
    NewUpdater 1%positive None world0 = Some (b, w1) /\
    run_calls b example_calls w1 = Some (errs, w2) /\
    builders w2 !! b = Some bv /\
    replay state0 (b_out bv) = Ok (b_state bv).
Proof.
  split; [reflexivity|].
  exact (session_state_is_replay world0 1%positive authority0 None example_calls
           eq_refl).
Defined.

(** The messages of that session are valid. *)
Lemma session_output_is_validated_witness :
  authorities world0 !! 1%positive = Some authority0 /\
  exists b w1 errs w2 bv,
    NewUpdater 1%positive None world0 = Some (b, w1) /\
    run_calls b example_calls w1 = Some (errs, w2) /\
    builders w2 !! b = Some bv /\
    Forall (fun u => StaticValidate u = None) (b_out bv).
Proof.
  split; [reflexivity|].
  exact (session_output_is_validated world0 1%positive authority0 None
           example_calls eq_refl).
Defined.

(** The same calls on the builder that has already produced a message. *)
Lemma session_appends_one_message_per_success_witness :
  builders world0 !! 7%positive = Some builder7 /\
  exists errs w' bv' new,
    run_calls 7%positive example_calls world0 = Some (errs, w') /\
    builders w' !! 7%positive = Some bv' /\
    b_out bv' = [first_update] ++ new /\
    length new = successes errs /\
    length errs = 3%nat /\
    b_a bv' = 1%positive /\
    b_signer bv' = Some signer_ok.
Proof.
  split; [reflexivity|].
  exact (session_appends_one_message_per_success example_calls world0 7%positive
           builder7 eq_refl).
Defined.

(** A session on the example Authority finalizes while the head stands. *)
Lemma session_finalize_witness :
  authorities world0 !! 1%positive = Some authority0 /\
  exists b w1 errs w2 bv,
    NewUpdater 1%positive (Some signer_ok) world0 = Some (b, w1) /\
    run_calls b example_calls w1 = Some (errs, w2) /\
    builders w2 !! b = Some bv /\
    Finalize b w2 = Some ((b_out bv, None), w2).
Proof.
  split; [reflexivity|].
  destruct (session_finalize world0 1%positive authority0 (Some signer_ok)
              example_calls eq_refl)
    as (b & w1 & errs & w2 & bv & Hnew & Hrun & Hb & Hfin & _).
  exists b, w1, errs, w2, bv. split; [exact Hnew|]. split; [exact Hrun|].
  split; [exact Hb|exact Hfin].
Defined.

(** A signed session of public operations. *)
Lemma session_messages_signed_witness :
  authorities world0 !! 1%positive = Some authority0 /\
  Forall is_public example_calls /\
  exists b w1 errs w2 bv,
    NewUpdater 1%positive (Some signer_ok) world0 = Some (b, w1) /\
    run_calls b example_calls w1 = Some (errs, w2) /\
    builders w2 !! b = Some bv /\
    Forall (signed_by (Some signer_ok)) (b_out bv).
Proof.
  assert (Hpub : Forall is_public example_calls).
  { repeat constructor. }
  split; [reflexivity|]. split; [exact Hpub|].
  exact (session_messages_signed world0 1%positive authority0 (Some signer_ok)
           example_calls eq_refl Hpub).
Defined.

End SessionExamples.

(** * The health registry (health/health.go)

    The package keeps its state in package-level variables guarded by one
    mutex.  The functions below are the bodies of its critical sections, on
    a record of those variables; calls are taken one at a time.  A Go [error]
    is taken by its message, [None] for nil.  Only the variables that the
    functions modelled here read or write are kept. *)

Module Health.

Abbreviation Subsystem := string.
Abbreviation goerror := (option string).

Definition SysOverall : Subsystem := "overall".
Definition SysRouter : Subsystem := "router".
Definition SysDNS : Subsystem := "dns".
Definition SysDNSOS : Subsystem := "dns-os".
Definition SysDNSManager : Subsystem := "dns-manager".
Definition SysNetworkCategory : Subsystem := "network-category".

(** [type ReceiveFuncStats struct].  [numCalls] and [prevNumCalls] are
    [uint64], [inCall] is a [uint32] used as a boolean. *)
Record ReceiveFuncStats : Type := mkStats {
  name : string;
  numCalls : Z;
  prevNumCalls : Z;
  inCall : Z;
  missing : bool;
}.



(** The body of the loop of [checkReceiveFuncs], on one [recv]. *)
Definition check (recv : ReceiveFuncStats) : ReceiveFuncStats :=
  let prev := prevNumCalls recv in
  let n := numCalls recv in
  let recv := mkStats (name recv) (numCalls recv) n (inCall recv) false in
  if bool_decide (n > prev)%Z then recv
  else if bool_decide (inCall recv = 1%Z) then recv
  else mkStats (name recv) (numCalls recv) (prevNumCalls recv) (inCall recv) true.

(** A timer made by [time.AfterFunc(time.Minute, timerSelfCheck)]. *)
Inductive Timer : Type := SelfCheckTimer.

Section Registry.
Context {Callback Time : Type}.

(** The package-level variables.  [sysErr] maps a subsystem to an error
    that may be nil, so a present key can hold [None].  [watchers] is keyed
    by the [*watchHandle] pointers; [allocated] holds every handle ever made
    by [new(watchHandle)], so that none is made twice.  [receiveFuncs] holds
    the objects the slice points to.  [goroutines] lists the calls
    [go cb(key, err)] started so far. *)
Record Globals : Type := mkGlobals {
  sysErr : gmap Subsystem goerror;
  watchers : gmap loc Callback;
  allocated : gset loc;
  timer : option Timer;
  inMapPoll : bool;
  inMapPollSince : Time;
  lastMapPollEndedAt : Time;
  ipnState : string;
  receiveFuncs : list ReceiveFuncStats;
  goroutines : list (Callback * Subsystem * goerror);
}.

Definition set_sysErr (m : gmap Subsystem goerror) (g : Globals) : Globals :=
  mkGlobals m (watchers g) (allocated g) (timer g) (inMapPoll g)
            (inMapPollSince g) (lastMapPollEndedAt g) (ipnState g)
            (receiveFuncs g) (goroutines g).

Definition set_watchers (m : gmap loc Callback) (a : gset loc) (g : Globals) : Globals :=
  mkGlobals (sysErr g) m a (timer g) (inMapPoll g)
            (inMapPollSince g) (lastMapPollEndedAt g) (ipnState g)
            (receiveFuncs g) (goroutines g).

Definition set_timer (t : option Timer) (g : Globals) : Globals :=
  mkGlobals (sysErr g) (watchers g) (allocated g) t (inMapPoll g)
            (inMapPollSince g) (lastMapPollEndedAt g) (ipnState g)
            (receiveFuncs g) (goroutines g).

Definition set_poll (v : bool) (since ended : Time) (g : Globals) : Globals :=
  mkGlobals (sysErr g) (watchers g) (allocated g) (timer g) v since ended
            (ipnState g) (receiveFuncs g) (goroutines g).

Definition set_receiveFuncs (l : list ReceiveFuncStats) (g : Globals) : Globals :=
  mkGlobals (sysErr g) (watchers g) (allocated g) (timer g) (inMapPoll g)
            (inMapPollSince g) (lastMapPollEndedAt g) (ipnState g)
            l (goroutines g).

Definition set_goroutines (l : list (Callback * Subsystem * goerror)) (g : Globals)
  : Globals :=
  mkGlobals (sysErr g) (watchers g) (allocated g) (timer g) (inMapPoll g)
            (inMapPollSince g) (lastMapPollEndedAt g) (ipnState g)
            (receiveFuncs g) l.

(** [func RegisterWatcher(cb) (unregister func())]: the result is the new
    handle, which is all the returned closure holds. *)
Definition RegisterWatcher (cb : Callback) (g : Globals) : loc * Globals :=
  let handle := fresh (allocated g) in
  let g := set_watchers (<[handle := cb]> (watchers g)) ({[handle]} ∪ allocated g) g in
  let g := if timer g is None then set_timer (Some SelfCheckTimer) g else g in
  (handle, g).

(** The closure [RegisterWatcher] returns, for the handle it holds. *)
Definition unregister (handle : loc) (g : Globals) : Globals :=
  let g := set_watchers (delete handle (watchers g)) (allocated g) g in
  if bool_decide (size (watchers g) = 0%nat /\ timer g <> None)
  then set_timer None g
  else g.

(** [func get(key Subsystem) error]: a key that is absent reads as nil. *)
Definition get (key : Subsystem) (g : Globals) : goerror :=
  default None (sysErr g !! key).

(** [for _, cb := range watchers { go cb(key, err) }]: Go ranges over a map
    in no fixed order; the calls are listed in the order of [map_to_list]. *)
Definition notify (key : Subsystem) (err : goerror) (g : Globals) : Globals :=
  set_goroutines
    (goroutines g ++ ((fun hc => (hc.2, key, err)) <$> map_to_list (watchers g))) g.

(** [func setLocked(key Subsystem, err error)], with the call of
    [selfCheckLocked] left open. *)
Definition setLocked_body (selfCheck : Globals -> option Globals)
    (key : Subsystem) (err : goerror) (g : Globals) : option Globals :=
  let ok := bool_decide (is_Some (sysErr g !! key)) in
  let old := default None (sysErr g !! key) in
  if negb ok && bool_decide (err = None) then
    selfCheck (set_sysErr (<[key := None]> (sysErr g)) g)
  else if ok && bool_decide ((old = None) <-> (err = None)) then
    if bool_decide (err <> None)
    then Some (set_sysErr (<[key := err]> (sysErr g)) g)
    else Some g
  else
    match selfCheck (set_sysErr (<[key := err]> (sysErr g)) g) with
    | Some g => Some (notify key err g)
    | None => None
    end.

(** [func selfCheckLocked()].  [overallErrorLocked] reads the clock and the
    environment; here the values its calls return are given in advance, in
    the order of the calls, and a computation that needs more of them than
    are given has no result. *)
Fixpoint selfCheckLocked (answers : list goerror) (g : Globals) : option Globals :=
  if bool_decide (ipnState g = "") then Some g
  else
    match answers with
    | [] => None
    | overall :: answers' =>
        setLocked_body (selfCheckLocked answers') SysOverall overall g
    end.

Definition setLocked (answers : list goerror) (key : Subsystem) (err : goerror)
  : Globals -> option Globals :=
  setLocked_body (selfCheckLocked answers) key err.

(** [func set(key Subsystem, err error)] and the exported wrappers. *)
Definition set (answers : list goerror) (key : Subsystem) (err : goerror)
  : Globals -> option Globals :=
  setLocked answers key err.

Definition SetRouterHealth answers err := set answers SysRouter err.
Definition RouterHealth := get SysRouter.
Definition SetDNSHealth answers err := set answers SysDNS err.
Definition DNSHealth := get SysDNS.
Definition SetDNSOSHealth answers err := set answers SysDNSOS err.
Definition DNSOSHealth := get SysDNSOS.
Definition SetDNSManagerHealth answers err := set answers SysDNSManager err.
Definition SetNetworkCategoryHealth answers err := set answers SysNetworkCategory err.
Definition NetworkCategoryHealth := get SysNetworkCategory.

(** [func SetInPollNetMap(v bool)]; [now] is what [time.Now()] returns. *)
Definition SetInPollNetMap (v : bool) (now : Time) (g : Globals) : Globals :=
  if bool_decide (v = inMapPoll g) then g
  else if v then set_poll v now (lastMapPollEndedAt g) g
  else set_poll v (inMapPollSince g) now g.

(** [func GetInPollNetMap() bool]. *)
Definition GetInPollNetMap (g : Globals) : bool := inMapPoll g.

(** [func checkReceiveFuncs()]. *)
Definition checkReceiveFuncs (g : Globals) : Globals :=
  set_receiveFuncs (check <$> receiveFuncs g) g.

(** [func timerSelfCheck()]: [timer.Reset] leaves the timer in place. *)
Definition timerSelfCheck (answers : list goerror) (g : Globals) : option Globals :=
  selfCheckLocked answers (checkReceiveFuncs g).

(** ** Vocabulary of the properties *)

(** A call of [Enter] or [Exit] on the receive func that [receiveFuncs]
    holds at an index. *)
Inductive RecvEvent : Type := EvEnter | EvExit.

#[global] Instance RecvEvent_eq_dec : EqDecision RecvEvent.
Proof. solve_decision. Defined.








(** The calls of [RegisterWatcher] and of the closures it returned. *)
Inductive WatchEvent : Type :=
  | Register (cb : Callback)
  | Unregister (handle : loc).

Definition watch_step (e : WatchEvent) (g : Globals) : Globals :=
  match e with
  | Register cb => (RegisterWatcher cb g).2
  | Unregister handle => unregister handle g
  end.

Definition watch_run (es : list WatchEvent) (g : Globals) : Globals :=
  foldl (fun g e => watch_step e g) g es.

(** The self-check timer runs exactly while a watcher is registered, and
    every registered handle has been allocated. *)
Definition watch_inv (g : Globals) : Prop :=
  (timer g = None <-> watchers g = ∅) /\ dom (watchers g) ⊆ allocated g.

(** [set key err] changes the health status of [key]: from unknown or
    healthy to unhealthy, or from unhealthy to healthy. *)
Definition changes_status (g : Globals) (key : Subsystem) (err : goerror) : Prop :=
  match sysErr g !! key with
  | None => err <> None
  | Some old => ~ (old = None <-> err = None)
  end.

#[global] Instance changes_status_dec g key err : Decision (changes_status g key err).
Proof. unfold changes_status. destruct (sysErr g !! key); apply _. Defined.

(** What a call of [selfCheckLocked] may do: write [sysErr] at
    [SysOverall] and start callbacks about [SysOverall]. *)
Definition overall_only (g g' : Globals) : Prop :=
  watchers g' = watchers g /\
  (forall k, k <> SysOverall -> sysErr g' !! k = sysErr g !! k) /\
  exists new, goroutines g' = goroutines g ++ new /\
              Forall (fun n : Callback * Subsystem * goerror => n.1.2 = SysOverall) new.

(** ** Receive funcs *)








(** ** Watchers and the self-check timer *)

Lemma RegisterWatcher_inv cb g : watch_inv g -> watch_inv (RegisterWatcher cb g).2.
Proof.
  intros [Ht Hdom]. unfold RegisterWatcher, watch_inv. simpl.
  destruct (timer g) as [t|] eqn:Htimer; simpl; rewrite ?Htimer.
  - split; [|rewrite dom_insert; set_solver].
    split; [done|]. intros He. by apply insert_non_empty in He.
  - split; [|rewrite dom_insert; set_solver].
    split; [done|]. intros He. by apply insert_non_empty in He.
Qed.

Lemma unregister_inv handle g : watch_inv g -> watch_inv (unregister handle g).
Proof.
  intros [Ht Hdom]. unfold unregister, watch_inv. simpl.
  assert (Hsub : dom (delete handle (watchers g)) ⊆ allocated g).
  { rewrite dom_delete. set_solver. }
  case_bool_decide as Hc; simpl.
  - split; [|done]. split; [|done]. intros _.
    apply map_size_empty_iff. by destruct Hc.
  - split; [|done]. split.
    + intros Hnone. apply Ht in Hnone. rewrite Hnone. apply delete_empty.
    + intros Hempty. destruct (timer g) as [t|] eqn:Htimer; [|done].
      exfalso. apply Hc. split; [|done]. by apply map_size_empty_iff.
Qed.

(** X7.  Through every sequence of registrations and unregistrations
    (of any handles, in any order, also twice) the self-check timer is set
    exactly while at least one watcher is registered. *)
Theorem timer_runs_while_watched es : forall g,
  watch_inv g ->
  watch_inv (watch_run es g) /\
  (timer (watch_run es g) = None <-> watchers (watch_run es g) = ∅).
Proof.
  assert (Hinv : forall g, watch_inv g -> watch_inv (watch_run es g)).
  { induction es as [|e es IH]; intros g Hg; [done|].
    simpl. apply IH. destruct e as [cb|handle]; simpl.
    - by apply RegisterWatcher_inv.
    - by apply unregister_inv. }
  intros g Hg. split; [by apply Hinv|]. by destruct (Hinv g Hg).
Qed.

Lemma watch_run_keeps es : forall g handle,
  handle ∈ allocated g ->
  Forall (fun e => e <> Unregister handle) es ->
  watchers (watch_run es g) !! handle = watchers g !! handle /\
  handle ∈ allocated (watch_run es g).
Proof.
  induction es as [|e es IH]; intros g handle Hin Hes; [done|].
  apply Forall_cons_1 in Hes as [He Hes]. simpl.
  assert (Hstep : watchers (watch_step e g) !! handle = watchers g !! handle /\
                  handle ∈ allocated (watch_step e g)).
  { destruct e as [cb|h']; simpl.
    - unfold RegisterWatcher. simpl.
      assert (Hfresh : fresh (allocated g) <> handle).
      { intros Heq. rewrite <- Heq in Hin. by apply is_fresh in Hin. }
      destruct (timer g); simpl; (split; [by apply lookup_insert_ne|set_solver]).
    - unfold unregister. simpl.
      assert (h' <> handle) by congruence.
      case_bool_decide; simpl; (split; [by apply lookup_delete_ne|done]). }
  destruct Hstep as [Hw Ha]. destruct (IH (watch_step e g) handle Ha Hes) as [-> ?].
  by split.
Qed.

(** X8.  A watcher stays registered, under the handle [RegisterWatcher]
    gave it, through any later registrations and any unregistrations of other
    handles; registering it removes no other watcher; and its own
    [unregister] removes it. *)
Theorem watcher_registered_until_unregistered cb es g :
  watch_inv g ->
  Forall (fun e => e <> Unregister (RegisterWatcher cb g).1) es ->
  let handle := (RegisterWatcher cb g).1 in
  let g1 := (RegisterWatcher cb g).2 in
  watchers g !! handle = None /\
  (forall h c, watchers g !! h = Some c -> watchers g1 !! h = Some c) /\
  watchers (watch_run es g1) !! handle = Some cb /\
  watchers (unregister handle (watch_run es g1)) !! handle = None.
Proof.
  intros [_ Hdom] Hes handle g1.
  assert (Hfresh : handle ∉ dom (watchers g)).
  { intros Hin. apply Hdom in Hin. by apply is_fresh in Hin. }
  assert (Hg1 : watchers g1 = <[handle := cb]> (watchers g)).
  { unfold g1, RegisterWatcher. simpl. by destruct (timer g). }
  assert (Ha1 : handle ∈ allocated g1).
  { unfold g1, RegisterWatcher. simpl. destruct (timer g); simpl; set_solver. }
  split; [by apply not_elem_of_dom|]. split; [|split].
  - intros h c Hh. rewrite Hg1. rewrite lookup_insert_ne; [done|].
    intros <-. apply Hfresh. apply elem_of_dom. by eexists.
  - destruct (watch_run_keeps es g1 handle Ha1 Hes) as [-> _].
    rewrite Hg1. apply lookup_insert_eq.
  - unfold unregister. simpl. case_bool_decide; simpl; apply lookup_delete_eq.
Qed.

(** ** The map-poll flag *)

(** X9.  [SetInPollNetMap(v)] on a flag that was [!v] sets it, so that
    [GetInPollNetMap] returns [v], and stamps the transition: the start time
    when the poll opens, the end time when it closes, the other one staying
    as it was.  Repeating the call with the same [v], at whatever later
    times, changes nothing: the stamp stays that of the transition. *)
Theorem SetInPollNetMap_stamps_transitions v now nows g :
  GetInPollNetMap g = negb v ->
  let g1 := SetInPollNetMap v now g in
  GetInPollNetMap g1 = v /\
  (if v
   then inMapPollSince g1 = now /\ lastMapPollEndedAt g1 = lastMapPollEndedAt g
   else lastMapPollEndedAt g1 = now /\ inMapPollSince g1 = inMapPollSince g) /\
  foldl (fun g t => SetInPollNetMap v t g) g1 nows = g1.
Proof.
  intros Hg g1. unfold GetInPollNetMap in *.
  assert (Hv : inMapPoll g1 = v).
  { unfold g1, SetInPollNetMap. rewrite Hg.
    rewrite bool_decide_eq_false_2 by (by destruct v). by destruct v. }
  split; [done|]. split.
  - unfold g1, SetInPollNetMap. rewrite Hg.
    rewrite bool_decide_eq_false_2 by (by destruct v). by destruct v.
  - induction nows as [|t nows IH]; [done|]. simpl.
    unfold SetInPollNetMap at 2. rewrite Hv.
    by rewrite bool_decide_eq_true_2.
Qed.

(** ** Setting and reading a subsystem's error *)

Lemma overall_only_refl g : overall_only g g.
Proof.
  split; [done|]. split; [done|]. exists []. by rewrite app_nil_r.
Qed.

(** The callbacks [setLocked] starts about [key]: one per watcher when the
    status changes, none otherwise. *)
Definition key_calls (g : Globals) (key : Subsystem) (err : goerror)
  : list (Callback * Subsystem * goerror) :=
  if decide (changes_status g key err)
  then (fun hc => (hc.2, key, err)) <$> map_to_list (watchers g)
  else [].

(** What one run of the body of [setLocked] does, when the self-check it
    calls only touches [SysOverall]. *)
Lemma setLocked_body_spec selfCheck key err g g' :
  (forall x y, selfCheck x = Some y -> overall_only x y) ->
  setLocked_body selfCheck key err g = Some g' ->
  watchers g' = watchers g /\
  (forall k, k <> key -> k <> SysOverall -> sysErr g' !! k = sysErr g !! k) /\
  (key <> SysOverall -> sysErr g' !! key = Some err) /\
  exists inner,
    Forall (fun n : Callback * Subsystem * goerror => n.1.2 = SysOverall) inner /\
    goroutines g' = goroutines g ++ inner ++ key_calls g key err.
Proof.
  intros Hself. unfold setLocked_body, key_calls.
  assert (Hchg : changes_status g key err <->
                 match sysErr g !! key with
                 | None => err <> None
                 | Some old => ~ (old = None <-> err = None)
                 end) by done.
  destruct (sysErr g !! key) as [old|] eqn:Hold; simpl.
  - (* the key is known *)
    case_bool_decide as Hsame; simpl.
    + (* same status *)
      rewrite decide_False by (rewrite Hchg; tauto).
      case_bool_decide as Herr.
      * intros [= <-]. simpl. split; [done|]. split; [|split].
        -- intros k Hk _. by rewrite lookup_insert_ne.
        -- intros _. apply lookup_insert_eq.
        -- exists []. split; [done|]. by rewrite !app_nil_r.
      * intros [= <-]. split; [done|]. split; [done|]. split.
        -- intros _. rewrite Hold. f_equal.
           destruct err as [e|]; [done|].
           destruct old as [o|]; [|done]. exfalso.
           assert (Some o = None) by (by apply Hsame). done.
        -- exists []. split; [done|]. by rewrite !app_nil_r.
    + (* the status changes *)
      rewrite decide_True by (by rewrite Hchg).
      destruct (selfCheck _) as [g2|] eqn:Hcheck; [|done].
      intros [= <-]. apply Hself in Hcheck as (Hw & Hs & new & Hnew & Hall).
      simpl in *. split; [done|]. split; [|split].
      * intros k Hk Ho. rewrite Hs by done. by rewrite lookup_insert_ne.
      * intros Ho. rewrite Hs by done. apply lookup_insert_eq.
      * exists new. split; [done|]. by rewrite Hnew, Hw, <- app_assoc.
  - (* the key is unknown *)
    case_bool_decide as Herr; simpl.
    + (* unknown to healthy *)
      rewrite decide_False by (rewrite Hchg; by intros ?).
      intros Hcheck. apply Hself in Hcheck as (Hw & Hs & new & Hnew & Hall).
      simpl in *. split; [done|]. split; [|split].
      * intros k Hk Ho. rewrite Hs by done. by rewrite lookup_insert_ne.
      * intros Ho. rewrite Hs by done. rewrite Herr. apply lookup_insert_eq.
      * exists new. split; [done|]. by rewrite app_nil_r.
    + (* unknown to unhealthy *)
      rewrite decide_True by (by rewrite Hchg).
      destruct (selfCheck _) as [g2|] eqn:Hcheck; [|done].
      intros [= <-]. apply Hself in Hcheck as (Hw & Hs & new & Hnew & Hall).
      simpl in *. split; [done|]. split; [|split].
      * intros k Hk Ho. rewrite Hs by done. by rewrite lookup_insert_ne.
      * intros Ho. rewrite Hs by done. apply lookup_insert_eq.
      * exists new. split; [done|]. by rewrite Hnew, Hw, <- app_assoc.
Qed.

Lemma selfCheckLocked_overall_only answers : forall g g',
  selfCheckLocked answers g = Some g' -> overall_only g g'.
Proof.
  induction answers as [|overall answers IH]; intros g g'; simpl.
  - case_bool_decide; [|done]. intros [= <-]. apply overall_only_refl.
  - case_bool_decide; [intros [= <-]; apply overall_only_refl|].
    intros Hbody.
    destruct (setLocked_body_spec _ _ _ _ _ IH Hbody)
      as (Hw & Hs & _ & inner & Hinner & Hg).
    split; [done|]. split.
    + intros k Hk. by apply Hs.
    + eexists. split; [exact Hg|]. apply Forall_app. split; [done|].
      unfold key_calls. case_decide; [|done].
      apply Forall_fmap. by apply Forall_true.
Qed.

Lemma filter_none {A} (P : A -> Prop) `{forall x, Decision (P x)} (l : list A) :
  Forall (fun x => ~ P x) l -> filter P l = [].
Proof.
  induction 1 as [|x l Hx Hl IH]; [done|]. by rewrite filter_cons_False.
Qed.

Lemma filter_all {A} (P : A -> Prop) `{forall x, Decision (P x)} (l : list A) :
  Forall P l -> filter P l = l.
Proof.
  induction 1 as [|x l Hx Hl IH]; [done|]. rewrite filter_cons_True by done.
  by rewrite IH.
Qed.

(** X10.  [set key err], for a subsystem other than [SysOverall], starts
    callbacks about [key] exactly when the call changes the status of [key]
    to or from unhealthy: then every registered watcher is called once with
    [key] and [err]; when the status stays as it is, or goes from unknown to
    healthy, none is.  Whatever else it starts is about [SysOverall]; the
    watchers are left as they are. *)
Theorem set_notifies_on_status_change answers key err g g' :
  key <> SysOverall ->
  set answers key err g = Some g' ->
  watchers g' = watchers g /\
  exists new,
    goroutines g' = goroutines g ++ new /\
    Forall (fun n : Callback * Subsystem * goerror =>
              n.1.2 = key \/ n.1.2 = SysOverall) new /\
    filter (fun n : Callback * Subsystem * goerror => n.1.2 = key) new ≡ₚ
      if decide (changes_status g key err)
      then (fun cb => (cb, key, err)) <$> (map_to_list (watchers g)).*2
      else [].
Proof.
  intros Hkey Hset.
  destruct (setLocked_body_spec _ _ _ _ _ (selfCheckLocked_overall_only answers) Hset)
    as (Hw & _ & _ & inner & Hinner & Hg).
  split; [done|]. exists (inner ++ key_calls g key err).
  split; [done|]. split.
  - apply Forall_app. split.
    + eapply Forall_impl; [|exact Hinner]. intros n Hn. by right.
    + unfold key_calls. case_decide; [|done].
      apply Forall_fmap. apply Forall_true. intros hc. by left.
  - rewrite list.filter_app.
    rewrite (filter_none _ inner).
    2:{ eapply Forall_impl; [|exact Hinner]. intros n Hn Hk. simpl in *. congruence. }
    simpl. unfold key_calls. case_decide; [|done].
    rewrite filter_all.
    + by rewrite <- list_fmap_compose.
    + apply Forall_fmap. by apply Forall_true.
Qed.

(** X11.  After [set key err], for a subsystem other than [SysOverall],
    [get key] returns [err], and [get] of every other subsystem but
    [SysOverall] returns what it did before. *)
Theorem get_after_set answers key err g g' :
  key <> SysOverall ->
  set answers key err g = Some g' ->
  get key g' = err /\
  (forall k, k <> key -> k <> SysOverall -> get k g' = get k g).
Proof.
  intros Hkey Hset.
  destruct (setLocked_body_spec _ _ _ _ _ (selfCheckLocked_overall_only answers) Hset)
    as (_ & Hother & Hthis & _).
  unfold get. split.
  - by rewrite Hthis.
  - intros k Hk Ho. by rewrite Hother.
Qed.

Lemma setLocked_body_same_status selfCheck key old err g :
  sysErr g !! key = Some old ->
  (old = None <-> err = None) ->
  is_Some (setLocked_body selfCheck key err g).
Proof.
  intros Hold Hsame. unfold setLocked_body. rewrite Hold. simpl.
  rewrite bool_decide_eq_true_2 by done.
  by case_bool_decide.
Qed.

(** One self-check ends once [SysOverall] holds a status and the next
    answer agrees with it. *)
Lemma selfCheckLocked_settles a answers old g :
  sysErr g !! SysOverall = Some old ->
  (old = None <-> a = None) ->
  is_Some (selfCheckLocked (a :: answers) g).
Proof.
  intros Hold Hsame. simpl. case_bool_decide; [done|].
  by eapply setLocked_body_same_status.
Qed.

(** The body of [setLocked] returns when the self-check it may call does. *)
Lemma setLocked_body_returns selfCheck key err g :
  is_Some (selfCheck (set_sysErr (<[key := err]> (sysErr g)) g)) ->
  is_Some (setLocked_body selfCheck key err g).
Proof.
  intros [g2 Hg2]. unfold setLocked_body.
  destruct (negb _ && bool_decide (err = None)) eqn:Hfirst.
  - apply andb_true_iff in Hfirst as [_ Herr].
    apply bool_decide_eq_true in Herr. subst err. by rewrite Hg2.
  - clear Hfirst. destruct (_ && _); [by case_bool_decide|]. by rewrite Hg2.
Qed.

Lemma selfCheckLocked_two a1 a2 answers g :
  (a1 = None <-> a2 = None) ->
  is_Some (selfCheckLocked (a1 :: a2 :: answers) g).
Proof.
  intros Hsame.
  change (selfCheckLocked (a1 :: a2 :: answers) g) with
    (if bool_decide (ipnState g = "") then Some g
     else setLocked_body (selfCheckLocked (a2 :: answers)) SysOverall a1 g).
  case_bool_decide; [done|].
  apply setLocked_body_returns.
  apply (selfCheckLocked_settles a2 answers a1); [|done].
  apply lookup_insert_eq.
Qed.

(** X12.  [set] returns: at once while no IPN state has been set, and
    otherwise after at most two calls of [overallErrorLocked], provided the
    first two agree on whether the node is healthy. *)
Theorem set_returns answers key err g :
  ipnState g = "" \/
  (exists a1 a2 rest, answers = a1 :: a2 :: rest /\ (a1 = None <-> a2 = None)) ->
  is_Some (set answers key err g).
Proof.
  intros Hcond.
  assert (Hcheck : forall g1, ipnState g1 = ipnState g ->
                              is_Some (selfCheckLocked answers g1)).
  { intros g1 Hipn. destruct Hcond as [Hempty|(a1 & a2 & rest & -> & Hsame)].
    - destruct answers; simpl; rewrite Hipn, Hempty; by rewrite bool_decide_eq_true_2.
    - by apply selfCheckLocked_two. }
  unfold set, setLocked. apply setLocked_body_returns. by apply Hcheck.
Qed.

End Registry.

(** ** The properties on the package's initial state *)

(** The variables as the package declares them: empty maps, no timer, the
    three receive funcs.  Callbacks are named by strings, times are numbers
    (0 for the zero time). *)
Definition init : @Globals string Z :=
  @mkGlobals string Z ∅ ∅ ∅ None false 0%Z 0%Z ""
    [mkStats "ReceiveIPv4" 0 0 0 false; mkStats "ReceiveIPv6" 0 0 0 false;
     mkStats "ReceiveDERP" 0 0 0 false]
    [].

(** A running node with one watcher. *)
Definition watched : @Globals string Z :=
  @mkGlobals string Z ∅ {[ 1%positive := "log" ]} {[ 1%positive ]}
    (Some SelfCheckTimer) false 0%Z 0%Z "Running"
    [mkStats "ReceiveIPv4" 0 0 0 false; mkStats "ReceiveIPv6" 0 0 0 false;
     mkStats "ReceiveDERP" 0 0 0 false]
    [].


Lemma init_watch_inv : watch_inv init.
Proof. split; [done|]. simpl. set_solver. Qed.

(** Two registrations and three unregistrations from the initial state. *)
Lemma timer_runs_while_watched_witness :
  watch_inv init /\
  watch_inv (watch_run [Register "a"; Register "b"; Unregister 1%positive;
                        Unregister 1%positive; Unregister 2%positive] init).
Proof.
  split; [exact init_watch_inv|].
  exact (proj1 (timer_runs_while_watched
                  [Register "a"; Register "b"; Unregister 1%positive;
                   Unregister 1%positive; Unregister 2%positive]
                  init init_watch_inv)).
Defined.

(** A watcher registered on the running node survives the registration of
    another one and the unregistration of the first. *)
Lemma watcher_registered_until_unregistered_witness :
  watch_inv watched /\
  watchers (watch_run [Register "other"; Unregister 1%positive]
                      (RegisterWatcher "mine" watched).2)
    !! (RegisterWatcher "mine" watched).1 = Some "mine".
Proof.
  assert (Hinv : watch_inv watched).
  { split; [|simpl; set_solver]. split; [done|].
    intros Hempty. destruct (map_non_empty_singleton 1%positive "log" Hempty). }
  split; [exact Hinv|].
  refine (proj1 (proj2 (proj2
    (watcher_registered_until_unregistered "mine"
       [Register "other"; Unregister 1%positive] watched Hinv _)))).
  repeat constructor; vm_compute; discriminate.
Defined.

(** The poll opens at time 7; later calls do not move the stamp. *)
Lemma SetInPollNetMap_stamps_transitions_witness :
  GetInPollNetMap init = negb true /\
  inMapPollSince (foldl (fun g t => SetInPollNetMap true t g)
                        (SetInPollNetMap true 7%Z init) [8%Z; 9%Z]) = 7%Z.
Proof.
  split; [reflexivity|].
  destruct (SetInPollNetMap_stamps_transitions true 7%Z [8%Z; 9%Z] init eq_refl)
    as (_ & [Hsince _] & Hrepeat).
  rewrite Hrepeat. exact Hsince.
Defined.

Lemma SysRouter_not_overall : SysRouter <> SysOverall.
Proof. discriminate. Qed.

(** The router turns unhealthy on the running node: the watcher is started
    once about the router. *)
Lemma set_notifies_on_status_change_witness :
  SysRouter <> SysOverall /\
  exists g',
    set [Some "no map"; Some "no map"] SysRouter (Some "router down") watched
      = Some g' /\
    watchers g' = watchers watched.
Proof.
  split; [exact SysRouter_not_overall|].
  destruct (set [Some "no map"; Some "no map"] SysRouter (Some "router down") watched)
    as [g'|] eqn:Hset.
  - exists g'. split; [reflexivity|].
    exact (proj1 (set_notifies_on_status_change _ _ _ _ _ SysRouter_not_overall Hset)).
  - exfalso. vm_compute in Hset. discriminate Hset.
Defined.

(** Reading back the router's error on the initial state. *)
Lemma get_after_set_witness :
  SysRouter <> SysOverall /\
  exists g',
    set [] SysRouter (Some "router down") init = Some g' /\
    RouterHealth g' = Some "router down".
Proof.
  split; [exact SysRouter_not_overall|].
  destruct (set [] SysRouter (Some "router down") init) as [g'|] eqn:Hset.
  - exists g'. split; [reflexivity|].
    exact (proj1 (get_after_set _ _ _ _ _ SysRouter_not_overall Hset)).
  - exfalso. vm_compute in Hset. discriminate Hset.
Defined.

(** Two agreeing answers are enough on the running node. *)
Lemma set_returns_witness :
  is_Some (set [None; None; Some "late"] SysDNS None watched).
Proof.
  apply set_returns. right. exists None, None, [Some "late"]. split; [reflexivity|].
  split; intros _; reflexivity.
Defined.

End Health.
